(** * zarrs-python: selection reduction, shape resolution and batch building

    A shallow embedding of [python/zarrs_python/utils.py].

    Python integers are unbounded and are modelled by [Z].  An index
    array holds 64-bit signed integers ([np.intp]): its elements are
    values of [Z] inside the 64-bit range, and the arithmetic NumPy does
    on them ([np.diff], [dim_selection[-1] + 1]) wraps around, which is
    written out with [wrap64].  Exceptions are modelled by the [Raise]
    constructor of [result]. *)

From Stdlib Require Import String ZArith List Bool Lia Arith.
Import ListNotations.
Open Scope Z_scope.

(** ** Exceptions *)

(** Argument carried by [DiscontiguousArrayError]: the difference array
    ([raise DiscontiguousArrayError(diff)]) or a message. *)
Inductive disc_arg : Type :=
| DiffArg (diff : list Z)
| MsgArg (msg : string).

Inductive exn : Type :=
| DiscontiguousArrayError (arg : disc_arg)
| CollapsedDimensionError
| IndexError
| ValueError
| TypeError.

Inductive result (A : Type) : Type :=
| Ok (a : A)
| Raise (e : exn).

Arguments Ok {A} a.
Arguments Raise {A} e.

Definition bind {A B : Type} (r : result A) (k : A -> result B) : result B :=
  match r with
  | Ok a => k a
  | Raise e => Raise e
  end.

Declare Scope result_scope.
Delimit Scope result_scope with result.
Notation "x <- r ;; k" := (bind r (fun x => k))
  (at level 61, r at next level, right associativity) : result_scope.
Notation "' p <- r ;; k" := (bind r (fun p => k))
  (at level 61, p pattern, r at next level, right associativity) : result_scope.
Open Scope result_scope.

Definition is_discontiguous {A : Type} (r : result A) : bool :=
  match r with
  | Raise (DiscontiguousArrayError _) => true
  | _ => false
  end.

(** ** Selector model *)

(** A Python [slice] object; [None] fields are [None]. *)
Record slice : Type := mk_slice {
  slice_start : option Z;
  slice_stop : option Z;
  slice_step : option Z
}.

(** A NumPy array of 64-bit signed integers: its [shape] and its
    elements in row-major (flattened) order. *)
Record ndarray : Type := mk_ndarray {
  nd_shape : list nat;
  nd_data : list Z
}.

(** A one-dimensional array holding the given positions. *)
Definition array1 (positions : list Z) : ndarray :=
  mk_ndarray [length positions] positions.

(** One axis of an index expression. *)
Inductive Selector : Type :=
| Integer (i : Z)
| Slice (s : slice)
| Ellipsis
| IndexArray (a : ndarray).

(** [zarr.core.indexing.SelectorTuple]: a tuple of selectors, a bare
    slice or a bare array. *)
Inductive SelectorTuple : Type :=
| BareSlice (s : slice)
| BareArray (a : ndarray)
| Tuple (sel : list Selector).

Definition is_ndarray (s : Selector) : bool :=
  match s with IndexArray _ => true | _ => false end.

Definition is_slice (s : Selector) : bool :=
  match s with Slice _ => true | _ => false end.

Definition is_ellipsis (s : Selector) : bool :=
  match s with Ellipsis => true | _ => false end.

(** [sum(pred(x) for x in l)] *)
Definition count (p : Selector -> bool) (l : list Selector) : nat :=
  length (filter p l).

(** ** Dispatch sizing *)

(** [x or d] on an optional integer: [None] and [0] are falsy. *)
Definition py_or (x : option Z) (d : Z) : Z :=
  match x with
  | None => d
  | Some v => if v =? 0 then d else v
  end.

(** [get_max_threads]; the argument is the value of [os.cpu_count()]. *)
Definition get_max_threads (cpu_count : option Z) : Z :=
  py_or cpu_count 1 + 4.

(** ** NumPy and list primitives *)

(** [dim_selection.ravel()] *)
Definition ravel (a : ndarray) : list Z := nd_data a.

(** The range of a 64-bit signed integer, and the value a 64-bit
    signed operation leaves for the exact result [z]. *)
Definition int64_min : Z := -9223372036854775808.
Definition int64_max : Z := 9223372036854775807.

Definition in_int64 (z : Z) : Prop := int64_min <= z <= int64_max.

Definition wrap64 (z : Z) : Z :=
  (z - int64_min) mod 18446744073709551616 + int64_min.

Fixpoint diff_from (x : Z) (l : list Z) : list Z :=
  match l with
  | [] => []
  | y :: t => (y - x) :: diff_from y t
  end.

(** The exact successive differences of a sequence of positions. *)
Definition differences (l : list Z) : list Z :=
  match l with
  | [] => []
  | x :: t => diff_from x t
  end.

(** [np.diff] of a flat array of 64-bit integers: every difference is
    taken in 64-bit arithmetic. *)
Definition np_diff (l : list Z) : list Z := map wrap64 (differences l).

(** [(diff != v).any()] *)
Definition any_ne (v : Z) (diff : list Z) : bool :=
  existsb (fun d => negb (d =? v)) diff.

(** The unit-step slice [slice(a, b, 1)]. *)
Definition unit_slice (a b : Z) : Selector :=
  Slice (mk_slice (Some a) (Some b) (Some 1)).

(** ** Contiguity reducer *)

Definition vindex_msg : string :=
  "Vindexing with only contiguous numpy arrays is not supported".

(** Body of the loop of [make_slice_selection]: the value appended to
    [ls] for one [dim_selection]. *)
Definition reduce_dim (dim_selection : Selector) : result Selector :=
  match dim_selection with
  | Integer i => Ok (unit_slice i (i + 1))
  | IndexArray a =>
      let flat := ravel a in
      if (length flat =? 1)%nat then
        match flat with
        | item :: _ => Ok (unit_slice item (item + 1))
        | [] => Raise IndexError
        end
      else
        let diff := np_diff flat in
        if any_ne 1 diff && any_ne 0 diff then
          Raise (DiscontiguousArrayError (DiffArg diff))
        else
          match flat with
          | first :: _ => Ok (unit_slice first (wrap64 (last flat 0 + 1)))
          | [] => Raise IndexError
          end
  | other => Ok other
  end.

(** The [for dim_selection in selection] loop, threading [ls]. *)
Fixpoint reduce_loop (selection ls : list Selector) : result (list Selector) :=
  match selection with
  | [] => Ok ls
  | dim_selection :: rest =>
      s <- reduce_dim dim_selection ;;
      reduce_loop rest (ls ++ [s])
  end.

(** The chained comparison after the loop:
    [sum(ndarray) == sum(slice) == len(selection)]. *)
Definition only_arrays_check (selection : list Selector) : bool :=
  (count is_ndarray selection =? count is_slice selection)%nat
  && (count is_slice selection =? length selection)%nat.

Definition make_slice_selection (selection : list Selector)
  : result (list Selector) :=
  ls <- reduce_loop selection [] ;;
  if only_arrays_check selection then
    Raise (DiscontiguousArrayError (MsgArg vindex_msg))
  else Ok ls.

(** Iterating a bare array: a 0-d array is not iterable, a 1-d array
    yields integer scalars, a higher-rank array yields its sub-arrays
    along the first axis. *)
Fixpoint chunks_of (m n : nat) (l : list Z) : list (list Z) :=
  match n with
  | O => []
  | S n' => firstn m l :: chunks_of m n' (skipn m l)
  end.

Definition iter_ndarray (a : ndarray) : result (list Selector) :=
  match nd_shape a with
  | [] => Raise TypeError
  | [_] => Ok (map Integer (nd_data a))
  | n :: rest =>
      Ok (map (fun d => IndexArray (mk_ndarray rest d))
              (chunks_of (fold_right Nat.mul 1%nat rest) n (nd_data a)))
  end.

Definition selector_tuple_to_slice_selection (selector_tuple : SelectorTuple)
  : result (list Selector) :=
  match selector_tuple with
  | BareSlice s => Ok [Slice s]
  | BareArray a =>
      items <- iter_ndarray a ;;
      if forallb is_slice items then Ok items
      else make_slice_selection items
  | Tuple sel =>
      if forallb is_slice sel then Ok sel
      else make_slice_selection sel
  end.

(** ** Python sequence primitives *)

(** [slice.indices(length)] as CPython computes it: the clamped
    [(start, stop, step)].  A zero step and a negative length raise
    [ValueError]. *)
Definition clamp_index (v : option Z) (length lower upper : Z)
  (dflt : Z) : Z :=
  match v with
  | None => dflt
  | Some i =>
      if i <? 0 then
        (if i + length <? lower then lower else i + length)
      else
        (if upper <? i then upper else i)
  end.

Definition slice_indices (s : slice) (length : Z) : result (Z * Z * Z) :=
  let step := match slice_step s with None => 1 | Some k => k end in
  if step =? 0 then Raise ValueError
  else if length <? 0 then Raise ValueError
  else
    let step_is_negative := step <? 0 in
    let lower := if step_is_negative then -1 else 0 in
    let upper := if step_is_negative then length - 1 else length in
    let start := clamp_index (slice_start s) length lower upper
                   (if step_is_negative then upper else lower) in
    let stop := clamp_index (slice_stop s) length lower upper
                  (if step_is_negative then lower else upper) in
    Ok (start, stop, step).

Definition len {A : Type} (l : list A) : Z := Z.of_nat (length l).

(** [seq[i]] on a tuple: negative indices count from the end, an index
    out of range raises [IndexError]. *)
Definition py_getitem {A : Type} (l : list A) (i : Z) : result A :=
  let j := if i <? 0 then i + len l else i in
  if j <? 0 then Raise IndexError
  else
    match nth_error l (Z.to_nat j) with
    | Some x => Ok x
    | None => Raise IndexError
    end.

(** [seq[lo:hi]] on a tuple (unit step): both bounds are clamped the
    way [slice.indices] clamps them. *)
Definition py_getslice {A : Type} (l : list A) (lo hi : option Z) : list A :=
  let start := clamp_index lo (len l) 0 (len l) 0 in
  let stop := clamp_index hi (len l) 0 (len l) (len l) in
  firstn (Z.to_nat (stop - start)) (skipn (Z.to_nat start) l).

(** [np.broadcast_shapes]: shapes are aligned on their trailing edge;
    two sizes are compatible when they are equal or one of them is 1. *)
Fixpoint broadcast_rev (a b : list nat) : result (list nat) :=
  match a, b with
  | [], _ => Ok b
  | _, [] => Ok a
  | x :: a', y :: b' =>
      r <- broadcast_rev a' b' ;;
      if (x =? y)%nat then Ok (x :: r)
      else if (x =? 1)%nat then Ok (y :: r)
      else if (y =? 1)%nat then Ok (x :: r)
      else Raise ValueError
  end.

Fixpoint broadcast_all_rev (acc : list nat) (shapes : list (list nat))
  : result (list nat) :=
  match shapes with
  | [] => Ok acc
  | s :: rest =>
      acc' <- broadcast_rev acc (rev s) ;;
      broadcast_all_rev acc' rest
  end.

Definition np_broadcast_shapes (shapes : list (list nat)) : result (list nat) :=
  r <- broadcast_all_rev [] shapes ;;
  Ok (rev r).

(** ** Shape resolver *)

(** [[idx.shape for idx in index_tuple if isinstance(idx, np.ndarray)]] *)
Fixpoint advanced_index_shapes (index_tuple : list Selector) : list (list nat) :=
  match index_tuple with
  | [] => []
  | IndexArray a :: rest => nd_shape a :: advanced_index_shapes rest
  | _ :: rest => advanced_index_shapes rest
  end.

Definition step_msg : string := "Step size greater than 1 is not supported".

(** State of the walk: [result_shape] and [basic_shape_index]. *)
Definition walk_state : Type := (list Z * Z)%type.

(** Body of the loop [for idx in index_tuple]; [n_index] is
    [len(index_tuple)]. *)
Definition walk_step (array_shape : list Z) (n_index : Z)
  (st : walk_state) (idx : Selector) : result walk_state :=
  let '(result_shape, basic_shape_index) := st in
  match idx with
  | Integer _ => Ok (result_shape, basic_shape_index + 1)
  | Slice s =>
      if match slice_step s with Some k => 1 <? k | None => false end then
        Raise (DiscontiguousArrayError (MsgArg step_msg))
      else
        dim <- py_getitem array_shape basic_shape_index ;;
        '(start, stop, _) <- slice_indices s dim ;;
        Ok (result_shape ++ [stop - start], basic_shape_index + 1)
  | Ellipsis =>
      let num_to_fill := len array_shape - n_index + 1 in
      Ok (result_shape
            ++ py_getslice array_shape (Some basic_shape_index)
                 (Some (basic_shape_index + num_to_fill)),
          basic_shape_index + num_to_fill)
  | IndexArray _ => Ok st
  end.

Fixpoint walk (array_shape : list Z) (n_index : Z)
  (index_tuple : list Selector) (st : walk_state) : result walk_state :=
  match index_tuple with
  | [] => Ok st
  | idx :: rest =>
      st' <- walk_step array_shape n_index st idx ;;
      walk array_shape n_index rest st'
  end.

(** The broadcast block placed in front of the result, with the number
    of source dimensions it consumes. *)
Definition advanced_block (index_tuple : list Selector) : result walk_state :=
  match advanced_index_shapes index_tuple with
  | [] => Ok ([], 0)
  | shapes =>
      broadcasted_shape <- np_broadcast_shapes shapes ;;
      Ok (map Z.of_nat broadcasted_shape, len shapes)
  end.

(** [tuple(size for idx, size in enumerate(result_shape)
           if idx not in drop_axes)] *)
Definition enumerate {A : Type} (l : list A) : list (nat * A) :=
  combine (seq 0 (length l)) l.

Definition in_axes (idx : nat) (drop_axes : list Z) : bool :=
  existsb (Z.eqb (Z.of_nat idx)) drop_axes.

Definition drop_axes_filter (drop_axes : list Z) (result_shape : list Z)
  : list Z :=
  map snd (filter (fun p => negb (in_axes (fst p) drop_axes))
                  (enumerate result_shape)).

(** The shape assembled before [drop_axes] is applied. *)
Definition assembled_shape (array_shape : list Z)
  (index_tuple : list Selector) (pad : bool) : result (list Z) :=
  st0 <- advanced_block index_tuple ;;
  '(result_shape, basic_shape_index) <-
     walk array_shape (len index_tuple) index_tuple st0 ;;
  if (basic_shape_index <? len array_shape) && pad then
    Ok (result_shape ++ py_getslice array_shape (Some basic_shape_index) None)
  else Ok result_shape.

Definition resulting_shape_from_index (array_shape : list Z)
  (index_tuple : list Selector) (drop_axes : list Z) (pad : bool)
  : result (list Z) :=
  result_shape <- assembled_shape array_shape index_tuple pad ;;
  Ok (drop_axes_filter drop_axes result_shape).

Definition get_shape_for_selector (selector_tuple : SelectorTuple)
  (shape : list Z) (drop_axes : list Z) (pad : bool) : result (list Z) :=
  match selector_tuple with
  | BareSlice s => resulting_shape_from_index shape [Slice s] drop_axes pad
  | BareArray a => resulting_shape_from_index shape [IndexArray a] drop_axes pad
  | Tuple sel => resulting_shape_from_index shape sel drop_axes pad
  end.

(** ** Chunk batch builder *)

(** The part of [ArraySpec] that the builder reads: [shape], [str(dtype)]
    and [fill_value.tobytes()]. *)
Record ArraySpec : Type := mk_spec {
  spec_shape : list Z;
  spec_dtype : string;
  spec_fill_value : list Byte.byte
}.

(** A byte getter is only ever passed to [str]; it is represented by
    that string. *)
Definition ByteGetter : Type := string.

Definition ChunkPrimitive : Type :=
  (string * list Z * string * list Byte.byte)%type.

(** One element of [batch_info]:
    [(byte_getter, chunk_spec, chunk_selection, out_selection)]. *)
Record BatchInfo : Type := mk_info {
  info_getter : ByteGetter;
  info_spec : ArraySpec;
  info_chunk_selection : SelectorTuple;
  info_out_selection : SelectorTuple
}.

(** One element of the returned list. *)
Definition BatchItem : Type :=
  (ChunkPrimitive * list Selector * list Selector)%type.

(** Computations that may raise and that record, in order, every chunk
    descriptor they produce.  The record survives a raise, so it shows
    how far construction had come. *)
Definition Build (A : Type) : Type :=
  list ChunkPrimitive -> list ChunkPrimitive * result A.

Definition ret {A : Type} (a : A) : Build A := fun tr => (tr, Ok a).

Definition lift {A : Type} (r : result A) : Build A := fun tr => (tr, r).

Definition produced (p : ChunkPrimitive) : Build unit :=
  fun tr => (tr ++ [p], Ok tt).

Definition bindB {A B : Type} (m : Build A) (k : A -> Build B) : Build B :=
  fun tr =>
    match m tr with
    | (tr', Ok a) => k a tr'
    | (tr', Raise e) => (tr', Raise e)
    end.

Declare Scope build_scope.
Delimit Scope build_scope with build.
Notation "x <-- m ;; k" := (bindB m (fun x => k))
  (at level 61, m at next level, right associativity) : build_scope.

Definition convert_chunk_to_primitive (byte_getter : ByteGetter)
  (chunk_spec : ArraySpec) : ChunkPrimitive :=
  (byte_getter, spec_shape chunk_spec, spec_dtype chunk_spec,
   spec_fill_value chunk_spec).

(** Body of the validating loop for one entry. *)
Definition check_entry (drop_axes : list Z) (info : BatchInfo) : result unit :=
  shape_out_selection <-
    get_shape_for_selector (info_out_selection info)
      (spec_shape (info_spec info)) [] false ;;
  shape_chunk_selection <-
    get_shape_for_selector (info_chunk_selection info)
      (spec_shape (info_spec info)) drop_axes true ;;
  if (length shape_chunk_selection =? length shape_out_selection)%nat
  then Ok tt
  else Raise CollapsedDimensionError.

Fixpoint check_entries (drop_axes : list Z) (batch_info : list BatchInfo)
  : result unit :=
  match batch_info with
  | [] => Ok tt
  | info :: rest =>
      _ <- check_entry drop_axes info ;;
      check_entries drop_axes rest
  end.

(** One element of the generator handed to [list(...)]: the descriptor,
    then the reduced output selection, then the reduced chunk selection. *)
Definition build_entry (info : BatchInfo) : Build BatchItem :=
  (let p := convert_chunk_to_primitive (info_getter info) (info_spec info) in
   _ <-- produced p ;;
   out <-- lift (selector_tuple_to_slice_selection (info_out_selection info)) ;;
   chunk <-- lift (selector_tuple_to_slice_selection (info_chunk_selection info)) ;;
   ret (p, out, chunk))%build.

Fixpoint build_entries (batch_info : list BatchInfo) : Build (list BatchItem) :=
  match batch_info with
  | [] => ret []
  | info :: rest =>
      (item <-- build_entry info ;;
       items <-- build_entries rest ;;
       ret (item :: items))%build
  end.

(** [batch_info] is traversed twice; it is a list. *)
Definition make_chunk_info_for_rust_with_indices
  (batch_info : list BatchInfo) (drop_axes : list Z)
  : Build (list BatchItem) :=
  (_ <-- lift (check_entries drop_axes batch_info) ;;
   build_entries batch_info)%build.

Definition make_chunk_info_for_rust (batch_info : list BatchInfo)
  : list ChunkPrimitive :=
  map (fun info => convert_chunk_to_primitive (info_getter info) (info_spec info))
      batch_info.

(** Whether both shapes of an entry resolve, and to which ranks. *)
Definition entry_ranks (drop_axes : list Z) (info : BatchInfo)
  : option (nat * nat) :=
  match get_shape_for_selector (info_out_selection info)
          (spec_shape (info_spec info)) [] false,
        get_shape_for_selector (info_chunk_selection info)
          (spec_shape (info_spec info)) drop_axes true with
  | Ok so, Ok sc => Some (length so, length sc)
  | _, _ => None
  end.

Definition ranks_agree (drop_axes : list Z) (info : BatchInfo) : Prop :=
  exists n, entry_ranks drop_axes info = Some (n, n).


(** ** Reference semantics of basic indexing *)

(** [len(range(start, stop, step))] for a non-zero step. *)
Definition range_len (start stop step : Z) : Z :=
  if 0 <? step then
    (if start <? stop then (stop - start - 1) / step + 1 else 0)
  else
    (if stop <? start then (start - stop - 1) / (- step) + 1 else 0).

Definition full_slice : slice := mk_slice None None None.

(** An [Ellipsis] stands for [fill] full slices. *)
Fixpoint expand_ellipsis (fill : nat) (sel : list Selector) : list Selector :=
  match sel with
  | [] => []
  | Ellipsis :: rest => repeat (Slice full_slice) fill ++ expand_ellipsis fill rest
  | idx :: rest => idx :: expand_ellipsis fill rest
  end.

(** Shape left by indexing axis by axis: an in-range integer removes its
    axis, a slice keeps as many elements as its range has, axes without
    a selector are kept whole. *)
Fixpoint index_dims (shape : list Z) (sel : list Selector) {struct sel}
  : result (list Z) :=
  match sel, shape with
  | [], _ => Ok shape
  | _ :: _, [] => Raise IndexError
  | Integer i :: sel', d :: shape' =>
      if (- d <=? i) && (i <? d) then index_dims shape' sel'
      else Raise IndexError
  | Slice s :: sel', d :: shape' =>
      '(start, stop, step) <- slice_indices s d ;;
      r <- index_dims shape' sel' ;;
      Ok (range_len start stop step :: r)
  | _ :: _, _ :: _ => Raise IndexError
  end.

(** Shape of [a[sel]] for an array [a] of the given shape and a
    selection of integers, slices and at most one [Ellipsis]. *)
Definition indexed_axes (sel : list Selector) : nat :=
  (length sel - count is_ellipsis sel)%nat.

Definition expand_selection (shape : list Z) (sel : list Selector)
  : list Selector :=
  expand_ellipsis (length shape - indexed_axes sel) sel.

Definition basic_index_shape (shape : list Z) (sel : list Selector)
  : result (list Z) :=
  if (1 <? count is_ellipsis sel)%nat then Raise IndexError
  else if (length shape <? indexed_axes sel)%nat then Raise IndexError
  else index_dims shape (expand_selection shape sel).

Definition no_index_array (sel : list Selector) : bool :=
  forallb (fun idx => negb (is_ndarray idx)) sel.

(** Every slice has a unit step and does not run backwards on the axis
    it meets. *)
Fixpoint forward_unit_slices (shape : list Z) (sel : list Selector)
  {struct sel} : bool :=
  match sel, shape with
  | Slice s :: sel', d :: shape' =>
      match slice_step s with
      | None => true
      | Some k => k =? 1
      end
      && match slice_indices s d with
         | Ok (start, stop, _) => start <=? stop
         | Raise _ => false
         end
      && forward_unit_slices shape' sel'
  | _ :: sel', _ :: shape' => forward_unit_slices shape' sel'
  | _, _ => true
  end.

(** Removing the listed axes from a shape, keeping the others in order;
    [i] is the index of the head of the list. *)
Fixpoint remove_axes_from (i : nat) (drop_axes : list Z) (shape : list Z)
  : list Z :=
  match shape with
  | [] => []
  | d :: rest =>
      if in_axes i drop_axes then remove_axes_from (S i) drop_axes rest
      else d :: remove_axes_from (S i) drop_axes rest
  end.

Definition remove_axes (drop_axes : list Z) (shape : list Z) : list Z :=
  remove_axes_from 0 drop_axes shape.

(** Consecutive positions of a flat array: [neighbours l x y] when [y]
    follows [x] immediately in [l]; [y - x] is a successive difference. *)
Inductive neighbours : list Z -> Z -> Z -> Prop :=
| neighbours_here x y t : neighbours (x :: y :: t) x y
| neighbours_later x t a b : neighbours t a b -> neighbours (x :: t) a b.

(** [a, a+1, ..., a+n-1] *)
Fixpoint run (a : Z) (n : nat) : list Z :=
  match n with
  | O => []
  | S n' => a :: run (a + 1) n'
  end.

Definition has_large_step (sel : list Selector) : bool :=
  existsb (fun idx => match idx with
                      | Slice s => match slice_step s with
                                   | Some k => 1 <? k
                                   | None => false
                                   end
                      | _ => false
                      end) sel.

(** What the walk can raise: [IndexError], [ValueError], and
    [DiscontiguousArrayError] only in front of a step greater than 1. *)
Inductive walk_exn (sel : list Selector) : exn -> Prop :=
| walk_exn_index : walk_exn sel IndexError
| walk_exn_value : walk_exn sel ValueError
| walk_exn_step : has_large_step sel = true ->
    walk_exn sel (DiscontiguousArrayError (MsgArg step_msg)).

(** Case analysis on every integer comparison in sight. *)
Ltac case_ltb :=
  repeat match goal with
         | |- context [?a <? ?b] =>
             destruct (Z.ltb_spec a b); cbv beta iota in *
         | H : context [?a <? ?b] |- _ =>
             destruct (Z.ltb_spec a b); cbv beta iota in *
         end;
  try lia.

(** ** Auxiliary notions for the properties below *)

(** The selectors of a selection that are not index arrays, in order. *)
Definition non_arrays (sel : list Selector) : list Selector :=
  filter (fun idx => negb (is_ndarray idx)) sel.

(** The descriptor built for one entry of a batch. *)
Definition entry_primitive (info : BatchInfo) : ChunkPrimitive :=
  convert_chunk_to_primitive (info_getter info) (info_spec info).

(** Both selections of an entry reduce to slice lists. *)
Definition entry_reduces (info : BatchInfo) (out chunk : list Selector) : Prop :=
  selector_tuple_to_slice_selection (info_out_selection info) = Ok out
  /\ selector_tuple_to_slice_selection (info_chunk_selection info) = Ok chunk.

(** The reduction of an entry raises [e]: on its output selection, or on
    its chunk selection after the output selection has reduced. *)
Definition entry_fails (info : BatchInfo) (e : exn) : Prop :=
  selector_tuple_to_slice_selection (info_out_selection info) = Raise e
  \/ ((exists out,
         selector_tuple_to_slice_selection (info_out_selection info) = Ok out)
      /\ selector_tuple_to_slice_selection (info_chunk_selection info)
         = Raise e).

(** No slice of the selection has step [0] (such a slice has no
    indices: [slice.indices] raises on it). *)
Definition nonzero_steps (sel : list Selector) : Prop :=
  Forall (fun idx => match idx with
                     | Slice s => slice_step s <> Some 0
                     | _ => True
                     end) sel.

(** A selection that indexes an array of the given shape: no more
    selectors than the array has axes, at most one [Ellipsis], index
    arrays that broadcast, slices of non-zero step, and no negative
    dimension in the shape. *)
Definition valid_selection (array_shape : list Z) (sel : list Selector)
  : Prop :=
  (length sel <= length array_shape)%nat
  /\ (count is_ellipsis sel <= 1)%nat
  /\ (exists st0, advanced_block sel = Ok st0)
  /\ nonzero_steps sel
  /\ Forall (fun d => 0 <= d) array_shape.

(** The number of source dimensions the walk moves over, when an
    [Ellipsis] stands for [num_to_fill] of them. *)
Fixpoint walk_cost (num_to_fill : Z) (sel : list Selector) : Z :=
  match sel with
  | [] => 0
  | Ellipsis :: rest => num_to_fill + walk_cost num_to_fill rest
  | IndexArray _ :: rest => walk_cost num_to_fill rest
  | _ :: rest => 1 + walk_cost num_to_fill rest
  end.

(** An axis number that no axis of a shape of rank [n] carries. *)
Definition outside_rank (n : nat) (axis : Z) : Prop :=
  axis < 0 \/ Z.of_nat n <= axis.

(** * Properties *)

(** ** Dispatch sizing *)

(** C8: with [os.cpu_count()] reporting a count [n >= 1] the worker count
    is [n + 4]; with no count available ([None]) it is [5]; it is at
    least [5] for every value [os.cpu_count()] can report, and equal
    inputs give equal worker counts. *)
Theorem get_max_threads_floor (cpu_count : option Z)
  (Hcount : forall n, cpu_count = Some n -> 0 <= n) :
  (forall n, cpu_count = Some n -> 0 < n -> get_max_threads cpu_count = n + 4)
  /\ (cpu_count = None -> get_max_threads cpu_count = 5)
  /\ 5 <= get_max_threads cpu_count
  /\ (forall c', c' = cpu_count -> get_max_threads c' = get_max_threads cpu_count).
Proof.
  assert (Hsome : forall n, 0 < n -> get_max_threads (Some n) = n + 4).
  { intros n Hn. unfold get_max_threads, py_or.
    destruct (Z.eqb_spec n 0); [lia | reflexivity]. }
  assert (Hzero : get_max_threads (Some 0) = 5) by reflexivity.
  assert (Hnone : get_max_threads None = 5) by reflexivity.
  repeat split.
  - intros n -> Hn. now apply Hsome.
  - intros ->. exact Hnone.
  - destruct cpu_count as [v|]; [|rewrite Hnone; lia].
    specialize (Hcount v eq_refl).
    destruct (Z.eq_dec v 0) as [->|Hv]; [rewrite Hzero; lia|].
    rewrite Hsome; lia.
  - intros c' ->. reflexivity.
Qed.

Lemma get_max_threads_floor_witness :
  get_max_threads (Some 8) = 8 + 4 /\ 5 <= get_max_threads (Some 8).
Proof.
  assert (H : forall n, Some 8 = Some n -> 0 <= n)
    by (intros n Hn; inversion Hn; lia).
  destruct (get_max_threads_floor (Some 8) H) as (Hplus & _ & Hfloor & _).
  split; [ apply (Hplus 8); [reflexivity | lia] | exact Hfloor ].
Defined.

(** ** Contiguity reducer: the loop *)

Lemma reduce_loop_acc (selection ls : list Selector) :
  reduce_loop selection ls
  = (r <- reduce_loop selection [] ;; Ok (ls ++ r)).
Proof.
  revert ls; induction selection as [|d rest IH]; intros ls; simpl.
  - now rewrite app_nil_r.
  - destruct (reduce_dim d) as [s|e]; simpl; [|reflexivity].
    rewrite (IH (ls ++ [s])), (IH [s]).
    destruct (reduce_loop rest []) as [r|e]; simpl; [|reflexivity].
    now rewrite <- app_assoc.
Qed.

Lemma reduce_loop_cons (d : Selector) (rest : list Selector) :
  reduce_loop (d :: rest) []
  = (s <- reduce_dim d ;; r <- reduce_loop rest [] ;; Ok (s :: r)).
Proof.
  simpl. destruct (reduce_dim d) as [s|e]; simpl; [|reflexivity].
  now rewrite reduce_loop_acc.
Qed.

Lemma reduce_loop_raise (pre post : list Selector) (d : Selector)
  (lp : list Selector) (e : exn) :
  reduce_loop pre [] = Ok lp ->
  reduce_dim d = Raise e ->
  reduce_loop (pre ++ d :: post) [] = Raise e.
Proof.
  revert lp; induction pre as [|x pre IH]; intros lp Hpre Hd.
  - rewrite app_nil_l, reduce_loop_cons, Hd. reflexivity.
  - rewrite <- app_comm_cons, reduce_loop_cons.
    rewrite reduce_loop_cons in Hpre.
    destruct (reduce_dim x) as [s|e']; simpl in *; [|discriminate].
    destruct (reduce_loop pre []) as [r|e'] eqn:Hr; simpl in *; [|discriminate].
    now rewrite (IH r eq_refl Hd).
Qed.

Lemma reduce_loop_nth (pre post : list Selector) (d s : Selector)
  (ls : list Selector) :
  reduce_dim d = Ok s ->
  reduce_loop (pre ++ d :: post) [] = Ok ls ->
  nth_error ls (length pre) = Some s.
Proof.
  revert ls; induction pre as [|x pre IH]; intros ls Hd Hall.
  - rewrite app_nil_l, reduce_loop_cons, Hd in Hall. simpl in Hall.
    destruct (reduce_loop post []); simpl in Hall; [|discriminate].
    now inversion Hall.
  - rewrite <- app_comm_cons, reduce_loop_cons in Hall.
    destruct (reduce_dim x) as [sx|e]; simpl in Hall; [|discriminate].
    destruct (reduce_loop (pre ++ d :: post) []) as [r|e] eqn:Hr;
      simpl in Hall; [|discriminate].
    inversion Hall; subst ls. simpl. now apply IH.
Qed.

(** The two counts of the closing check are taken over disjoint kinds of
    selector, so together they never exceed the length. *)
Lemma count_array_slice_le (selection : list Selector) :
  (count is_ndarray selection + count is_slice selection
   <= length selection)%nat.
Proof.
  unfold count.
  induction selection as [|d rest IH]; simpl; [lia|].
  destruct d; simpl; lia.
Qed.

Lemma only_arrays_check_nonempty (d : Selector) (rest : list Selector) :
  only_arrays_check (d :: rest) = false.
Proof.
  unfold only_arrays_check.
  pose proof (count_array_slice_le (d :: rest)) as Hle.
  destruct (Nat.eqb_spec (count is_ndarray (d :: rest))
                         (count is_slice (d :: rest))) as [He|]; [|reflexivity].
  destruct (Nat.eqb_spec (count is_slice (d :: rest))
                         (length (d :: rest))) as [Hl|]; [|reflexivity].
  simpl in *. lia.
Qed.

Lemma make_slice_selection_nonempty (selection : list Selector) :
  selection <> [] ->
  make_slice_selection selection = reduce_loop selection [].
Proof.
  intros Hne. unfold make_slice_selection.
  destruct selection as [|d rest]; [congruence|].
  rewrite only_arrays_check_nonempty.
  destruct (reduce_loop (d :: rest) []); reflexivity.
Qed.

Lemma make_slice_selection_single (d s : Selector) :
  reduce_dim d = Ok s -> make_slice_selection [d] = Ok [s].
Proof.
  intros Hd. rewrite make_slice_selection_nonempty by discriminate.
  simpl. now rewrite Hd.
Qed.

(** ** Contiguity reducer: differences *)

Lemma wrap64_exact (z : Z) : in_int64 z -> wrap64 z = z.
Proof.
  unfold in_int64, wrap64, int64_min, int64_max. intros Hz.
  rewrite Z.mod_small; lia.
Qed.

Lemma np_diff_exact (l : list Z) :
  Forall in_int64 (differences l) -> np_diff l = differences l.
Proof.
  unfold np_diff. intros H.
  induction H as [|d rest Hd Hrest IH]; [reflexivity|].
  simpl. now rewrite wrap64_exact, IH.
Qed.

Lemma any_ne_differences (v : Z) (l : list Z) :
  any_ne v (differences l) = true
  <-> exists x y, neighbours l x y /\ y - x <> v.
Proof.
  destruct l as [|x t]; simpl.
  - split; [discriminate|]. intros (a & b & H & _). inversion H.
  - revert x; induction t as [|y t IH]; intros x; simpl.
    + split; [discriminate|]. intros (a & b & H & _).
      inversion H; subst. match goal with H' : neighbours [] _ _ |- _ => inversion H' end.
    + split.
      * intros H. apply orb_true_iff in H as [H|H].
        -- exists x, y. split; [constructor|].
           apply negb_true_iff in H. now apply Z.eqb_neq.
        -- apply IH in H as (a & b & Hn & Hab).
           exists a, b. split; [now constructor|assumption].
      * intros (a & b & Hn & Hab). apply orb_true_iff.
        inversion Hn; subst.
        -- left. apply negb_true_iff. now apply Z.eqb_neq.
        -- right. apply IH. now exists a, b.
Qed.

Lemma any_ne_map (v : Z) (f : Z -> Z) (d : list Z) :
  any_ne v (map f d) = true <-> exists x, In x d /\ f x <> v.
Proof.
  unfold any_ne. rewrite existsb_exists. split.
  - intros (y & Hy & Hne). apply in_map_iff in Hy as (x & <- & Hx).
    exists x. split; [assumption|].
    apply negb_true_iff in Hne. now apply Z.eqb_neq.
  - intros (x & Hx & Hne). exists (f x). split; [now apply in_map|].
    apply negb_true_iff. now apply Z.eqb_neq.
Qed.

Lemma neighbours_difference (l : list Z) (x y : Z) :
  neighbours l x y -> In (y - x) (differences l).
Proof.
  induction 1 as [x y t|x t a b Hn IH].
  - now left.
  - destruct t as [|z t]; [inversion Hn|]. simpl in *. now right.
Qed.

(** A pair of neighbours whose difference is representable and is not
    [v] shows in the array NumPy computes. *)
Lemma any_ne_np_diff (v : Z) (l : list Z) (x y : Z) :
  neighbours l x y -> in_int64 (y - x) -> y - x <> v ->
  any_ne v (np_diff l) = true.
Proof.
  intros Hn Hr Hne. unfold np_diff. apply any_ne_map.
  exists (y - x). split; [now apply neighbours_difference|].
  now rewrite wrap64_exact.
Qed.

Lemma any_ne_false_Forall (v : Z) (d : list Z) :
  any_ne v d = false <-> Forall (fun x => x = v) d.
Proof.
  unfold any_ne. induction d as [|x d IH]; simpl.
  - split; [constructor|reflexivity].
  - rewrite orb_false_iff, IH, negb_false_iff, Z.eqb_eq.
    split.
    + intros [Hx Hd]; now constructor.
    + intros H; inversion H; now split.
Qed.

Lemma any_ne_length (v : Z) (l : list Z) :
  any_ne v (np_diff l) = true -> (length l =? 1)%nat = false.
Proof.
  destruct l as [|x [|y t]]; simpl; try discriminate; reflexivity.
Qed.

(** Differences that are neither all [1] nor all [0] are rejected, with
    the difference array as the argument of the exception. *)
Lemma reduce_dim_mixed (a : ndarray) :
  any_ne 1 (np_diff (ravel a)) = true ->
  any_ne 0 (np_diff (ravel a)) = true ->
  reduce_dim (IndexArray a)
  = Raise (DiscontiguousArrayError (DiffArg (np_diff (ravel a)))).
Proof.
  intros H1 H0. unfold reduce_dim.
  rewrite (any_ne_length _ _ H1), H1, H0. reflexivity.
Qed.

Lemma reduce_dim_uniform (a : ndarray) (first : Z) (t : list Z) :
  ravel a = first :: t -> t <> [] ->
  any_ne 1 (np_diff (ravel a)) && any_ne 0 (np_diff (ravel a)) = false ->
  reduce_dim (IndexArray a)
  = Ok (unit_slice first (wrap64 (last (ravel a) 0 + 1))).
Proof.
  intros Hr Ht Hu. unfold reduce_dim. rewrite Hu, Hr.
  destruct t as [|y t]; [congruence|]. reflexivity.
Qed.

Lemma diff_from_run (a : Z) (n : nat) :
  diff_from a (run (a + 1) n) = repeat 1 n.
Proof.
  revert a; induction n as [|n IH]; intros a; simpl; [reflexivity|].
  rewrite IH. f_equal. lia.
Qed.

Lemma diff_from_repeat (p : Z) (n : nat) :
  diff_from p (repeat p n) = repeat 0 n.
Proof.
  induction n as [|n IH]; simpl; [reflexivity|].
  rewrite IH. f_equal. lia.
Qed.

Lemma np_diff_uniform (v : Z) (n : nat) :
  in_int64 v -> any_ne v (map wrap64 (repeat v n)) = false.
Proof.
  intros Hv. induction n as [|n IH]; [reflexivity|].
  change (any_ne v (map wrap64 (repeat v (S n))))
    with (negb (wrap64 v =? v) || any_ne v (map wrap64 (repeat v n))).
  rewrite IH, wrap64_exact, Z.eqb_refl by assumption. reflexivity.
Qed.

Lemma in_int64_0 : in_int64 0.
Proof. unfold in_int64, int64_min, int64_max. lia. Qed.

Lemma in_int64_1 : in_int64 1.
Proof. unfold in_int64, int64_min, int64_max. lia. Qed.

Lemma last_run (a : Z) (n : nat) (d : Z) :
  last (run a (S n)) d = a + Z.of_nat n.
Proof.
  revert a; induction n as [|n IH]; intros a.
  - simpl. lia.
  - change (run a (S (S n))) with (a :: run (a + 1) (S n)).
    change (last (a :: run (a + 1) (S n)) d) with (last (run (a + 1) (S n)) d).
    rewrite IH. lia.
Qed.

Lemma reduce_dim_run (a : Z) (n : nat) :
  in_int64 (a + Z.of_nat n + 1) ->
  reduce_dim (IndexArray (array1 (run a (S n))))
  = Ok (unit_slice a (a + Z.of_nat n + 1)).
Proof.
  intros Hstop. destruct n as [|n].
  - simpl. replace (a + 0 + 1) with (a + 1) by lia. reflexivity.
  - rewrite (reduce_dim_uniform _ a (run (a + 1) (S n))).
    + unfold ravel, array1. cbn [nd_data].
      now rewrite last_run, wrap64_exact.
    + reflexivity.
    + discriminate.
    + unfold ravel, array1, np_diff. cbn [nd_data].
      change (differences (run a (S (S n))))
        with (diff_from a (run (a + 1) (S n))).
      now rewrite diff_from_run, (np_diff_uniform 1 _ in_int64_1).
Qed.

Lemma last_repeat (p : Z) (n : nat) (d : Z) :
  last (repeat p (S n)) d = p.
Proof.
  induction n as [|n IH]; [reflexivity|].
  change (repeat p (S (S n))) with (p :: repeat p (S n)).
  change (last (p :: repeat p (S n)) d) with (last (repeat p (S n)) d).
  exact IH.
Qed.

Lemma reduce_dim_repeat (p : Z) (n : nat) :
  in_int64 (p + 1) ->
  reduce_dim (IndexArray (array1 (repeat p (S (S n)))))
  = Ok (unit_slice p (p + 1)).
Proof.
  intros Hstop.
  rewrite (reduce_dim_uniform _ p (repeat p (S n))).
  - unfold ravel, array1. cbn [nd_data].
    now rewrite last_repeat, wrap64_exact.
  - reflexivity.
  - discriminate.
  - unfold ravel, array1, np_diff. cbn [nd_data].
    change (differences (repeat p (S (S n))))
      with (diff_from p (repeat p (S n))).
    rewrite diff_from_repeat, (np_diff_uniform 0 _ in_int64_0).
    apply andb_false_r.
Qed.

Lemma make_slice_selection_raise (pre post : list Selector) (d : Selector)
  (lp : list Selector) (e : exn) :
  reduce_loop pre [] = Ok lp ->
  reduce_dim d = Raise e ->
  make_slice_selection (pre ++ d :: post) = Raise e.
Proof.
  intros Hpre Hd.
  rewrite make_slice_selection_nonempty by (destruct pre; discriminate).
  eapply reduce_loop_raise; eassumption.
Qed.

Lemma make_slice_selection_nth (pre post : list Selector) (d s : Selector)
  (ls : list Selector) :
  reduce_dim d = Ok s ->
  make_slice_selection (pre ++ d :: post) = Ok ls ->
  nth_error ls (length pre) = Some s.
Proof.
  intros Hd Hall.
  rewrite make_slice_selection_nonempty in Hall by (destruct pre; discriminate).
  eapply reduce_loop_nth; eassumption.
Qed.

(** ** Contiguity reducer: claims *)

(** C1: a selection made of index arrays only is not rejected.  On the
    axes [([1,2], [3,4])] the reducer returns
    [[slice(1,3,1), slice(3,5,1)]] and raises nothing: the closing check
    compares the number of arrays with the number of slices and with the
    length, which cannot all agree on a non-empty selection. *)
Theorem vectorized_selection_not_rejected :
  make_slice_selection [IndexArray (array1 [1; 2]); IndexArray (array1 [3; 4])]
  = Ok [unit_slice 1 3; unit_slice 3 5]
  /\ forall d rest, only_arrays_check (d :: rest) = false.
Proof.
  split; [reflexivity|]. exact only_arrays_check_nonempty.
Qed.

(** C2: the one-dimensional index array of the consecutive ascending
    positions [a, a+1, ..., b] (64-bit integers, with [b + 1]
    representable) reduces to [slice(a, b+1, 1)], alone and on its axis of
    any selection that reduces; an index array with a gap between two
    consecutive positions, a difference other than [0] and [1] (such as
    [[2, 4]]; the difference representable in 64 bits), fails with
    [DiscontiguousArrayError], alone and after any axes that reduce. *)
Theorem consecutive_run_reduction (a b : Z) (Hab : a <= b)
  (Ha : in_int64 a) (Hb : in_int64 (b + 1)) :
  let positions := run a (Z.to_nat (b - a + 1)) in
  make_slice_selection [IndexArray (array1 positions)]
    = Ok [unit_slice a (b + 1)]
  /\ (forall pre post ls,
        make_slice_selection (pre ++ IndexArray (array1 positions) :: post)
          = Ok ls ->
        nth_error ls (length pre) = Some (unit_slice a (b + 1)))
  /\ (forall l x y,
        neighbours l x y -> y - x <> 0 -> y - x <> 1 -> in_int64 (y - x) ->
        make_slice_selection [IndexArray (array1 l)]
          = Raise (DiscontiguousArrayError (DiffArg (np_diff l)))
        /\ forall pre post lp,
             reduce_loop pre [] = Ok lp ->
             make_slice_selection (pre ++ IndexArray (array1 l) :: post)
               = Raise (DiscontiguousArrayError (DiffArg (np_diff l)))).
Proof.
  intros positions.
  assert (Hred : reduce_dim (IndexArray (array1 positions))
                 = Ok (unit_slice a (b + 1))).
  { unfold positions.
    replace (Z.to_nat (b - a + 1)) with (S (Z.to_nat (b - a))) by lia.
    rewrite reduce_dim_run.
    - do 2 f_equal. lia.
    - replace (a + Z.of_nat (Z.to_nat (b - a)) + 1) with (b + 1) by lia.
      exact Hb. }
  split; [now apply make_slice_selection_single|].
  split.
  - intros pre post ls. now apply make_slice_selection_nth.
  - intros l x y Hn H0 H1 Hr.
    pose proof (any_ne_np_diff 1 l x y Hn Hr H1) as A1.
    pose proof (any_ne_np_diff 0 l x y Hn Hr H0) as A0.
    pose proof (reduce_dim_mixed (array1 l) A1 A0) as Hl.
    split.
    + now apply (make_slice_selection_raise [] [] _ [] _ eq_refl).
    + intros pre post lp Hpre.
      now apply (make_slice_selection_raise pre post _ lp).
Qed.

Lemma consecutive_run_reduction_witness :
  make_slice_selection [IndexArray (array1 [2; 3; 4])] = Ok [unit_slice 2 5]
  /\ make_slice_selection [IndexArray (array1 [2; 4])]
     = Raise (DiscontiguousArrayError (DiffArg [2])).
Proof.
  assert (H24 : 2 <= 4) by lia.
  assert (H2 : in_int64 2) by (unfold in_int64, int64_min, int64_max; lia).
  assert (H5 : in_int64 (4 + 1))
    by (unfold in_int64, int64_min, int64_max; lia).
  destruct (consecutive_run_reduction 2 4 H24 H2 H5) as (Hrun & _ & Hgap).
  split; [exact Hrun|].
  apply (Hgap [2; 4] 2 4); [constructor | lia | lia |].
  unfold in_int64, int64_min, int64_max; lia.
Defined.

(** C6: a one-dimensional index array of length at least [2] whose
    positions all equal [p] (a 64-bit integer, with [p + 1]
    representable) is accepted and reduces to [slice(p, p+1, 1)]; an
    index array whose successive differences (representable in 64 bits)
    are neither all [1] nor all [0] fails with [DiscontiguousArrayError]
    carrying the difference sequence. *)
Theorem repeated_index_reduction :
  (forall p n, (2 <= n)%nat -> in_int64 p -> in_int64 (p + 1) ->
     make_slice_selection [IndexArray (array1 (repeat p n))]
       = Ok [unit_slice p (p + 1)]
     /\ forall pre post ls,
          make_slice_selection (pre ++ IndexArray (array1 (repeat p n)) :: post)
            = Ok ls ->
          nth_error ls (length pre) = Some (unit_slice p (p + 1)))
  /\ (forall l,
        Forall in_int64 (differences l) ->
        ~ Forall (fun d => d = 1) (differences l) ->
        ~ Forall (fun d => d = 0) (differences l) ->
        make_slice_selection [IndexArray (array1 l)]
          = Raise (DiscontiguousArrayError (DiffArg (differences l)))
        /\ forall pre post lp,
             reduce_loop pre [] = Ok lp ->
             make_slice_selection (pre ++ IndexArray (array1 l) :: post)
               = Raise (DiscontiguousArrayError (DiffArg (differences l)))).
Proof.
  split.
  - intros p n Hn Hp Hstop.
    destruct n as [|[|n]]; try lia.
    pose proof (reduce_dim_repeat p n Hstop) as Hred.
    split; [now apply make_slice_selection_single|].
    intros pre post ls. now apply make_slice_selection_nth.
  - intros l Hr H1 H0.
    pose proof (np_diff_exact l Hr) as Hexact.
    assert (A1 : any_ne 1 (np_diff (ravel (array1 l))) = true).
    { unfold ravel, array1. cbn [nd_data]. rewrite Hexact.
      destruct (any_ne 1 (differences l)) eqn:E; [reflexivity|].
      apply any_ne_false_Forall in E. contradiction. }
    assert (A0 : any_ne 0 (np_diff (ravel (array1 l))) = true).
    { unfold ravel, array1. cbn [nd_data]. rewrite Hexact.
      destruct (any_ne 0 (differences l)) eqn:E; [reflexivity|].
      apply any_ne_false_Forall in E. contradiction. }
    pose proof (reduce_dim_mixed (array1 l) A1 A0) as Hl.
    unfold ravel, array1 in Hl. cbn [nd_data] in Hl. rewrite Hexact in Hl.
    split.
    + now apply (make_slice_selection_raise [] [] _ [] _ eq_refl).
    + intros pre post lp Hpre.
      now apply (make_slice_selection_raise pre post _ lp).
Qed.

Lemma repeated_index_reduction_witness :
  make_slice_selection [IndexArray (array1 [7; 7; 7])] = Ok [unit_slice 7 8]
  /\ make_slice_selection [IndexArray (array1 [1; 2; 2])]
     = Raise (DiscontiguousArrayError (DiffArg [1; 0])).
Proof.
  destruct repeated_index_reduction as [Hsame Hmixed].
  split.
  - apply (Hsame 7 3%nat); [lia | |];
      unfold in_int64, int64_min, int64_max; lia.
  - apply (Hmixed [1; 2; 2]).
    + repeat constructor; unfold int64_min, int64_max; simpl; lia.
    + intros H. inversion H as [|? ? _ Ht]; subst. inversion Ht; subst. lia.
    + intros H. inversion H; subst. lia.
Defined.

(** C10: the empty selection tuple is returned as the empty list by the
    all-slices branch; the loop and the closing check, which would raise
    on it, are not reached. *)
Theorem empty_tuple_passes_through :
  selector_tuple_to_slice_selection (Tuple []) = Ok []
  /\ make_slice_selection []
     = Raise (DiscontiguousArrayError (MsgArg vindex_msg)).
Proof.
  split; reflexivity.
Qed.

(** ** Python sequence primitives *)

Lemma py_getitem_middle {A : Type} (pre rest : list A) (d : A) :
  py_getitem (pre ++ d :: rest) (len pre) = Ok d.
Proof.
  unfold py_getitem, len. cbv zeta. case_ltb.
  rewrite Nat2Z.id, nth_error_app2 by lia.
  now rewrite Nat.sub_diag.
Qed.

Lemma py_getslice_from {A : Type} (l : list A) (c : nat) :
  py_getslice l (Some (Z.of_nat c)) None = skipn c l.
Proof.
  unfold py_getslice, clamp_index, len. cbv zeta. case_ltb.
  - rewrite Z.sub_diag. simpl. symmetry. apply skipn_all2. lia.
  - rewrite Nat2Z.id.
    apply firstn_all2. rewrite length_skipn. lia.
Qed.

Lemma py_getslice_window {A : Type} (l : list A) (c f : nat) :
  (c + f <= length l)%nat ->
  py_getslice l (Some (Z.of_nat c)) (Some (Z.of_nat c + Z.of_nat f))
  = firstn f (skipn c l).
Proof.
  intros Hle. unfold py_getslice, clamp_index, len. cbv zeta. case_ltb.
  rewrite Nat2Z.id. f_equal. lia.
Qed.

(** ** Shape resolver: the walk *)

Lemma walk_app (array_shape : list Z) (n_index : Z)
  (pre post : list Selector) (st : walk_state) :
  walk array_shape n_index (pre ++ post) st
  = (st' <- walk array_shape n_index pre st ;;
     walk array_shape n_index post st').
Proof.
  revert st; induction pre as [|idx pre IH]; intros st; simpl; [reflexivity|].
  destruct (walk_step array_shape n_index st idx) as [st'|e]; simpl;
    [apply IH | reflexivity].
Qed.

Lemma walk_step_large (array_shape : list Z) (n_index : Z) (st : walk_state)
  (s : slice) (k : Z) :
  slice_step s = Some k -> 1 < k ->
  walk_step array_shape n_index st (Slice s)
  = Raise (DiscontiguousArrayError (MsgArg step_msg)).
Proof.
  intros Hs Hk. unfold walk_step. destruct st as [res bsi]. rewrite Hs.
  destruct (Z.ltb_spec 1 k); [reflexivity | lia].
Qed.

Lemma walk_step_small (array_shape : list Z) (n_index : Z) (st : walk_state)
  (s : slice) :
  match slice_step s with Some k => 1 <? k | None => false end = false ->
  walk_step array_shape n_index st (Slice s)
  = (dim <- py_getitem array_shape (snd st) ;;
     '(start, stop, _) <- slice_indices s dim ;;
     Ok (fst st ++ [stop - start], snd st + 1)).
Proof.
  intros Hs. unfold walk_step. destruct st as [res bsi]. now rewrite Hs.
Qed.

Lemma py_getitem_not_discontiguous {A : Type} (l : list A) (i : Z) :
  forall arg, py_getitem l i <> Raise (DiscontiguousArrayError arg).
Proof.
  intros arg. unfold py_getitem. cbv zeta.
  destruct (_ <? 0); [discriminate|].
  destruct (nth_error _ _); discriminate.
Qed.

Lemma slice_indices_raises (s : slice) (d : Z) (e : exn) :
  slice_indices s d = Raise e -> e = ValueError.
Proof.
  unfold slice_indices. cbv zeta.
  destruct (_ =? 0); [now inversion 1|].
  destruct (d <? 0); [now inversion 1|discriminate].
Qed.

Lemma py_getitem_raises {A : Type} (l : list A) (i : Z) (e : exn) :
  py_getitem l i = Raise e -> e = IndexError.
Proof.
  unfold py_getitem. cbv zeta.
  destruct (_ <? 0); [now inversion 1|].
  destruct (nth_error _ _); [discriminate|now inversion 1].
Qed.

Lemma broadcast_rev_raises (a b : list nat) (e : exn) :
  broadcast_rev a b = Raise e -> e = ValueError.
Proof.
  revert b; induction a as [|x a IH]; intros b; simpl.
  - discriminate.
  - destruct b as [|y b]; [discriminate|].
    destruct (broadcast_rev a b) as [r|e'] eqn:Hr; simpl.
    + destruct (x =? y)%nat; [discriminate|].
      destruct (x =? 1)%nat; [discriminate|].
      destruct (y =? 1)%nat; [discriminate|now inversion 1].
    + intros H; inversion H; subst. now apply (IH b).
Qed.

Lemma broadcast_all_rev_raises (shapes : list (list nat)) (acc : list nat)
  (e : exn) :
  broadcast_all_rev acc shapes = Raise e -> e = ValueError.
Proof.
  revert acc; induction shapes as [|s rest IH]; intros acc; simpl;
    [discriminate|].
  destruct (broadcast_rev acc (rev s)) as [acc'|e'] eqn:Hb; simpl.
  - apply IH.
  - intros H; inversion H; subst. now apply broadcast_rev_raises in Hb.
Qed.

Lemma advanced_block_raises (index_tuple : list Selector) (e : exn) :
  advanced_block index_tuple = Raise e -> e = ValueError.
Proof.
  unfold advanced_block, np_broadcast_shapes.
  destruct (advanced_index_shapes index_tuple) as [|s rest]; [discriminate|].
  destruct (broadcast_all_rev [] (s :: rest)) as [r|e'] eqn:Hb; simpl;
    [discriminate|].
  intros H; inversion H; subst. now apply broadcast_all_rev_raises in Hb.
Qed.

Lemma walk_step_raises (array_shape : list Z) (n_index : Z) (st : walk_state)
  (idx : Selector) (e : exn) :
  walk_step array_shape n_index st idx = Raise e -> walk_exn [idx] e.
Proof.
  destruct st as [res bsi]. destruct idx as [i|s| |a]; simpl; try discriminate.
  destruct (match slice_step s with Some k => 1 <? k | None => false end) eqn:Hs.
  - intros H; inversion H; subst. apply walk_exn_step. simpl. now rewrite Hs.
  - destruct (py_getitem array_shape bsi) as [dim|e'] eqn:Hg; simpl.
    + destruct (slice_indices s dim) as [[[a b] c]|e'] eqn:Hi; simpl;
        [discriminate|].
      intros H; inversion H; subst.
      apply slice_indices_raises in Hi; subst. constructor.
    + intros H; inversion H; subst.
      apply py_getitem_raises in Hg; subst. constructor.
Qed.

Lemma walk_exn_cons (idx : Selector) (rest : list Selector) (e : exn) :
  walk_exn [idx] e \/ walk_exn rest e -> walk_exn (idx :: rest) e.
Proof.
  intros [H|H]; inversion H; subst; try constructor.
  - simpl in *. rewrite orb_false_r in *.
    match goal with H' : _ = true |- _ => now rewrite H' end.
  - simpl. match goal with H' : has_large_step rest = true |- _ =>
      rewrite H' end. apply orb_true_r.
Qed.

Lemma walk_raises (array_shape : list Z) (n_index : Z)
  (sel : list Selector) (st : walk_state) (e : exn) :
  walk array_shape n_index sel st = Raise e -> walk_exn sel e.
Proof.
  revert st; induction sel as [|idx rest IH]; intros st; simpl;
    [discriminate|].
  destruct (walk_step array_shape n_index st idx) as [st'|e'] eqn:Hs; simpl.
  - intros H. apply walk_exn_cons. right. now apply (IH st').
  - intros H; inversion H; subst. apply walk_exn_cons. left.
    now apply walk_step_raises in Hs.
Qed.

Lemma assembled_shape_raises (array_shape : list Z)
  (index_tuple : list Selector) (pad : bool) (e : exn) :
  assembled_shape array_shape index_tuple pad = Raise e ->
  walk_exn index_tuple e.
Proof.
  unfold assembled_shape.
  destruct (advanced_block index_tuple) as [st0|e'] eqn:Hb; simpl.
  - destruct (walk array_shape (len index_tuple) index_tuple st0)
      as [[res bsi]|e'] eqn:Hw; simpl.
    + destruct (_ && pad); discriminate.
    + intros H; inversion H; subst. now apply walk_raises in Hw.
  - intros H; inversion H; subst.
    apply advanced_block_raises in Hb; subst. constructor.
Qed.

Lemma resulting_shape_raises (array_shape : list Z)
  (index_tuple : list Selector) (drop_axes : list Z) (pad : bool) (e : exn) :
  resulting_shape_from_index array_shape index_tuple drop_axes pad = Raise e ->
  walk_exn index_tuple e.
Proof.
  unfold resulting_shape_from_index.
  destruct (assembled_shape array_shape index_tuple pad) as [r|e'] eqn:Ha;
    simpl; [discriminate|].
  intros H; inversion H; subst. now apply assembled_shape_raises in Ha.
Qed.

Lemma walk_large_step_fails (array_shape : list Z) (n_index : Z)
  (sel : list Selector) :
  has_large_step sel = true ->
  forall st, exists e, walk array_shape n_index sel st = Raise e.
Proof.
  induction sel as [|idx rest IH]; simpl; [discriminate|].
  intros H st.
  destruct (walk_step array_shape n_index st idx) as [st'|e] eqn:Hs; simpl;
    [|now exists e].
  apply orb_true_iff in H as [H|H]; [|now apply IH].
  destruct idx as [i|s| |a]; try discriminate.
  destruct (slice_step s) as [k|] eqn:Hk; [|discriminate].
  apply Z.ltb_lt in H.
  rewrite (walk_step_large array_shape n_index st s k Hk H) in Hs. discriminate.
Qed.

(** ** Shape resolver: dropping axes *)

Lemma drop_axes_filter_from (drop_axes : list Z) (l : list Z) (i : nat) :
  map snd (filter (fun p => negb (in_axes (fst p) drop_axes))
                  (combine (seq i (length l)) l))
  = remove_axes_from i drop_axes l.
Proof.
  revert i; induction l as [|d rest IH]; intros i; simpl; [reflexivity|].
  destruct (in_axes i drop_axes); simpl; now rewrite IH.
Qed.

Lemma drop_axes_filter_remove (drop_axes : list Z) (l : list Z) :
  drop_axes_filter drop_axes l = remove_axes drop_axes l.
Proof. apply drop_axes_filter_from. Qed.

Lemma remove_axes_from_nil (l : list Z) (i : nat) :
  remove_axes_from i [] l = l.
Proof.
  revert i; induction l as [|d rest IH]; intros i; simpl; [reflexivity|].
  now rewrite IH.
Qed.

Lemma drop_axes_filter_nil (l : list Z) : drop_axes_filter [] l = l.
Proof. rewrite drop_axes_filter_remove. apply remove_axes_from_nil. Qed.

Lemma resulting_shape_no_drop (array_shape : list Z)
  (index_tuple : list Selector) (pad : bool) :
  resulting_shape_from_index array_shape index_tuple [] pad
  = assembled_shape array_shape index_tuple pad.
Proof.
  unfold resulting_shape_from_index.
  destruct (assembled_shape array_shape index_tuple pad); simpl;
    [now rewrite drop_axes_filter_nil | reflexivity].
Qed.

Lemma in_axes_In (i : nat) (drop_axes : list Z) :
  in_axes i drop_axes = true <-> In (Z.of_nat i) drop_axes.
Proof.
  unfold in_axes. rewrite existsb_exists. split.
  - intros (a & Ha & Heq). apply Z.eqb_eq in Heq. now subst a.
  - intros H. exists (Z.of_nat i). split; [assumption|apply Z.eqb_refl].
Qed.

Lemma enumerate_filter (f : nat -> bool) (l : list Z) (s : nat) :
  map snd (filter (fun p => f (fst p)) (combine (seq s (length l)) l))
  = map (fun i => nth (i - s) l 0) (filter f (seq s (length l))).
Proof.
  revert s; induction l as [|d rest IH]; intros s; [reflexivity|].
  simpl length. simpl seq. simpl combine. simpl filter.
  assert (Htail : map (fun i => nth (i - S s) rest 0)
                      (filter f (seq (S s) (length rest)))
                  = map (fun i => nth (i - s) (d :: rest) 0)
                      (filter f (seq (S s) (length rest)))).
  { apply map_ext_in. intros i Hi.
    apply filter_In in Hi as [Hi _]. apply in_seq in Hi.
    replace (i - s)%nat with (S (i - S s)) by lia. reflexivity. }
  destruct (f s); simpl map; rewrite IH, Htail; [|reflexivity].
  now rewrite Nat.sub_diag.
Qed.

Lemma drop_axes_filter_select (drop_axes : list Z) (l : list Z) :
  drop_axes_filter drop_axes l
  = map (fun i => nth i l 0)
        (filter (fun i => negb (in_axes i drop_axes)) (seq 0 (length l))).
Proof.
  unfold drop_axes_filter, enumerate.
  rewrite (enumerate_filter (fun i => negb (in_axes i drop_axes)) l 0).
  apply map_ext. intros i. now rewrite Nat.sub_0_r.
Qed.

(** C7: the resolver assembles the shape (walk, then padding) and only
    then removes the axes listed in [drop_axes]: what it returns holds,
    in increasing order of [i], the entry [i] of the assembled shape for
    exactly the indices [i] that are not listed in [drop_axes]; a failure
    of the assembly is raised unchanged; when a selection produces
    [(3, 5)], dropping axis [0] yields [(5,)]. *)
Theorem drop_axes_applied_last (array_shape : list Z)
  (index_tuple : list Selector) (drop_axes : list Z) (pad : bool) :
  (forall e,
     resulting_shape_from_index array_shape index_tuple [] pad = Raise e ->
     resulting_shape_from_index array_shape index_tuple drop_axes pad
     = Raise e)
  /\ (forall assembled,
        resulting_shape_from_index array_shape index_tuple [] pad
        = Ok assembled ->
        assembled_shape array_shape index_tuple pad = Ok assembled
        /\ exists keep : nat -> bool,
             (forall i, keep i = true <-> ~ In (Z.of_nat i) drop_axes)
             /\ resulting_shape_from_index array_shape index_tuple
                  drop_axes pad
                = Ok (map (fun i => nth i assembled 0)
                          (filter keep (seq 0 (length assembled)))))
  /\ (resulting_shape_from_index array_shape index_tuple [] pad = Ok [3; 5] ->
      resulting_shape_from_index array_shape index_tuple [0] pad = Ok [5]).
Proof.
  split; [|split].
  - intros e. rewrite resulting_shape_no_drop.
    unfold resulting_shape_from_index. now intros ->.
  - intros assembled. rewrite resulting_shape_no_drop. intros Hasm.
    split; [exact Hasm|].
    exists (fun i => negb (in_axes i drop_axes)). split.
    + intros i. rewrite negb_true_iff, <- in_axes_In.
      destruct (in_axes i drop_axes); split; congruence.
    + unfold resulting_shape_from_index. rewrite Hasm. cbn [bind].
      now rewrite drop_axes_filter_select.
  - rewrite resulting_shape_no_drop. unfold resulting_shape_from_index.
    intros ->. reflexivity.
Qed.

Lemma drop_axes_applied_last_witness :
  resulting_shape_from_index [4; 6]
    [Slice (mk_slice (Some 0) (Some 3) None);
     Slice (mk_slice (Some 0) (Some 5) None)] [0] true = Ok [5].
Proof.
  apply (drop_axes_applied_last [4; 6]
           [Slice (mk_slice (Some 0) (Some 3) None);
            Slice (mk_slice (Some 0) (Some 5) None)] [0] true).
  reflexivity.
Defined.

(** ** Shape resolver: the step restriction *)

Lemma no_large_step_not_discontiguous (array_shape : list Z)
  (index_tuple : list Selector) (drop_axes : list Z) (pad : bool) :
  has_large_step index_tuple = false ->
  is_discontiguous
    (resulting_shape_from_index array_shape index_tuple drop_axes pad) = false.
Proof.
  intros Hsmall.
  destruct (resulting_shape_from_index array_shape index_tuple drop_axes pad)
    as [r|e] eqn:Hr; [reflexivity|].
  apply resulting_shape_raises in Hr.
  inversion Hr; subst; try reflexivity. congruence.
Qed.

Lemma walk_cost_nonneg (num_to_fill : Z) (sel : list Selector) :
  0 <= num_to_fill -> 0 <= walk_cost num_to_fill sel.
Proof.
  intros Hfill. induction sel as [|idx rest IH]; [simpl; lia|].
  destruct idx; cbn [walk_cost]; lia.
Qed.

Lemma walk_cost_total (num_to_fill : Z) (sel : list Selector) :
  walk_cost num_to_fill sel + len (advanced_index_shapes sel)
  + Z.of_nat (count is_ellipsis sel)
  = len sel + Z.of_nat (count is_ellipsis sel) * num_to_fill.
Proof.
  unfold len, count. induction sel as [|idx rest IH]; [reflexivity|].
  destruct idx;
    cbn [walk_cost advanced_index_shapes filter is_ellipsis length];
    rewrite ?Nat2Z.inj_succ; lia.
Qed.

Lemma advanced_block_consumed (sel : list Selector) (block : list Z)
  (consumed : Z) :
  advanced_block sel = Ok (block, consumed) ->
  consumed = len (advanced_index_shapes sel).
Proof.
  unfold advanced_block.
  destruct (advanced_index_shapes sel) as [|s rest].
  - intros H; inversion H; reflexivity.
  - destruct (np_broadcast_shapes (s :: rest)); simpl; [|discriminate].
    intros H; inversion H; reflexivity.
Qed.

Lemma py_getitem_in_range {A : Type} (l : list A) (i : Z) :
  0 <= i < len l -> exists x, py_getitem l i = Ok x /\ In x l.
Proof.
  intros Hi. unfold py_getitem, len in *. cbv zeta.
  destruct (Z.ltb_spec i 0) as [|_]; [lia|].
  destruct (Z.ltb_spec i 0) as [|_]; [lia|].
  destruct (nth_error l (Z.to_nat i)) as [x|] eqn:Hn.
  - exists x. split; [reflexivity|]. eapply nth_error_In; eassumption.
  - apply nth_error_None in Hn. lia.
Qed.

Lemma slice_indices_defined (s : slice) (d : Z) :
  slice_step s <> Some 0 -> 0 <= d ->
  exists start stop step, slice_indices s d = Ok (start, stop, step).
Proof.
  intros Hs Hd. unfold slice_indices. cbv zeta.
  destruct (Z.eqb_spec (match slice_step s with None => 1 | Some k => k end) 0)
    as [Hz|_].
  - destruct (slice_step s) as [k|]; [subst k; congruence|discriminate].
  - destruct (Z.ltb_spec d 0) as [|_]; [lia|]. eauto.
Qed.

(** With room for every selector, the walk over a selection holding a
    slice of step greater than 1 comes to that slice and stops there. *)
Lemma walk_reaches_large_step (array_shape : list Z) (n_index : Z)
  (sel : list Selector) :
  0 <= len array_shape - n_index + 1 ->
  Forall (fun d => 0 <= d) array_shape ->
  nonzero_steps sel ->
  has_large_step sel = true ->
  forall res bsi,
    0 <= bsi ->
    bsi + walk_cost (len array_shape - n_index + 1) sel <= len array_shape ->
    walk array_shape n_index sel (res, bsi)
    = Raise (DiscontiguousArrayError (MsgArg step_msg)).
Proof.
  intros Hfill Hdims Hsteps.
  induction Hsteps as [|idx rest Hidx Hrest IH]; intros Hlarge res bsi Hb Hroom.
  - discriminate.
  - pose proof (walk_cost_nonneg _ rest Hfill) as Hcost.
    destruct idx as [i|s| |a]; cbn [walk_cost] in Hroom.
    + simpl in Hlarge. cbn [walk walk_step bind].
      apply IH; [assumption|lia|lia].
    + destruct (match slice_step s with Some k => 1 <? k | None => false end)
        eqn:Hs.
      * simpl. now rewrite Hs.
      * simpl in Hlarge. rewrite Hs in Hlarge. simpl in Hlarge.
        change (walk array_shape n_index (Slice s :: rest) (res, bsi))
          with (st' <- walk_step array_shape n_index (res, bsi) (Slice s) ;;
                walk array_shape n_index rest st').
        rewrite walk_step_small by exact Hs. cbn [fst snd].
        destruct (py_getitem_in_range array_shape bsi) as (d & Hd & Hin);
          [lia|].
        rewrite Hd. cbn [bind].
        rewrite Forall_forall in Hdims.
        destruct (slice_indices_defined s d Hidx (Hdims d Hin))
          as (start & stop & step & Hi).
        rewrite Hi. cbn [bind]. apply IH; [assumption|lia|lia].
    + simpl in Hlarge. cbn [walk walk_step bind].
      apply IH; [assumption|lia|lia].
    + simpl in Hlarge. cbn [walk walk_step bind].
      apply IH; [assumption|lia|lia].
Qed.

(** C5: on every selection that indexes the array (no more selectors
    than axes, at most one [Ellipsis], index arrays that broadcast, no
    zero step, no negative dimension) and contains a slice whose step is
    present and greater than 1, the resolver fails with
    [DiscontiguousArrayError].  On any selection at all such a slice
    leaves no shape to return, and the failure is
    [DiscontiguousArrayError] as soon as the walk comes to the slice.  A
    selection whose slices all have step [None] or a step of at most 1
    never fails with [DiscontiguousArrayError]. *)
Theorem large_step_rejection :
  (forall array_shape index_tuple drop_axes pad,
     valid_selection array_shape index_tuple ->
     has_large_step index_tuple = true ->
     resulting_shape_from_index array_shape index_tuple drop_axes pad
     = Raise (DiscontiguousArrayError (MsgArg step_msg)))
  /\ (forall array_shape index_tuple drop_axes pad,
        has_large_step index_tuple = true ->
        exists e,
          resulting_shape_from_index array_shape index_tuple drop_axes pad
          = Raise e)
  /\ (forall array_shape pre s k post drop_axes pad st0 st,
        slice_step s = Some k -> 1 < k ->
        advanced_block (pre ++ Slice s :: post) = Ok st0 ->
        walk array_shape (len (pre ++ Slice s :: post)) pre st0 = Ok st ->
        resulting_shape_from_index array_shape (pre ++ Slice s :: post)
          drop_axes pad
        = Raise (DiscontiguousArrayError (MsgArg step_msg)))
  /\ (forall array_shape index_tuple drop_axes pad,
        has_large_step index_tuple = false ->
        is_discontiguous
          (resulting_shape_from_index array_shape index_tuple drop_axes pad)
        = false).
Proof.
  split; [|split; [|split]].
  - intros array_shape index_tuple drop_axes pad
      (Hlen & Hell & [[block consumed] Hblock] & Hsteps & Hdims) Hlarge.
    unfold resulting_shape_from_index, assembled_shape.
    rewrite Hblock. cbn [bind].
    pose proof (advanced_block_consumed _ _ _ Hblock) as Hcons.
    pose proof (walk_cost_total (len array_shape - len index_tuple + 1)
                  index_tuple) as Htotal.
    assert (Hfill : 0 <= len array_shape - len index_tuple + 1)
      by (unfold len; lia).
    rewrite (walk_reaches_large_step array_shape (len index_tuple)
               index_tuple Hfill Hdims Hsteps Hlarge block consumed).
    + reflexivity.
    + subst consumed. unfold len. lia.
    + subst consumed. unfold len in *.
      destruct (count is_ellipsis index_tuple) as [|[|n]]; [lia|lia|lia].
  - intros array_shape index_tuple drop_axes pad Hlarge.
    unfold resulting_shape_from_index, assembled_shape.
    destruct (advanced_block index_tuple) as [st0|e]; simpl;
      [|now exists e].
    destruct (walk_large_step_fails array_shape (len index_tuple)
                index_tuple Hlarge st0) as [e He].
    rewrite He. now exists e.
  - intros array_shape pre s k post drop_axes pad st0 st Hs Hk Hb Hw.
    unfold resulting_shape_from_index, assembled_shape.
    rewrite Hb. simpl. rewrite walk_app, Hw. simpl.
    now rewrite (walk_step_large array_shape _ st s k Hs Hk).
  - intros. now apply no_large_step_not_discontiguous.
Qed.

Lemma large_step_rejection_witness :
  resulting_shape_from_index [4; 4]
    [Integer 1; Slice (mk_slice (Some 0) (Some 4) (Some 2))] [] true
  = Raise (DiscontiguousArrayError (MsgArg step_msg))
  /\ is_discontiguous
       (resulting_shape_from_index [4; 4]
          [Integer 1; Slice (mk_slice (Some 0) (Some 4) (Some 1))] [] true)
     = false.
Proof.
  destruct large_step_rejection as (Hvalid & _ & _ & Hsmall).
  split.
  - apply Hvalid; [|reflexivity].
    unfold valid_selection.
    refine (conj _ (conj _ (conj (ex_intro _ ([], 0) eq_refl) (conj _ _)))).
    + simpl. lia.
    + unfold count. simpl. lia.
    + repeat constructor. discriminate.
    + repeat constructor; lia.
  - apply Hsmall. reflexivity.
Defined.

(** C9: a slice with a negative step passes the step check, whatever the
    state of the walk: the walk looks up the source dimension, normalises
    the slice against it and appends [stop - start]; it does not make the
    resolver raise [DiscontiguousArrayError]; alone on an array with a
    first dimension [d >= 0] it resolves to [stop - start] followed, under
    padding, by the remaining dimensions. *)
Theorem negative_step_passes (s : slice) (k : Z)
  (Hs : slice_step s = Some k) (Hk : k < 0) :
  (forall array_shape n_index st,
     walk_step array_shape n_index st (Slice s)
     = (dim <- py_getitem array_shape (snd st) ;;
        '(start, stop, _) <- slice_indices s dim ;;
        Ok (fst st ++ [stop - start], snd st + 1)))
  /\ (forall array_shape pre post drop_axes pad,
        has_large_step pre = false -> has_large_step post = false ->
        is_discontiguous
          (resulting_shape_from_index array_shape (pre ++ Slice s :: post)
             drop_axes pad) = false)
  /\ (forall d rest pad, 0 <= d ->
        exists start stop,
          slice_indices s d = Ok (start, stop, k)
          /\ resulting_shape_from_index (d :: rest) [Slice s] [] pad
             = Ok ((stop - start) :: (if pad then rest else []))).
Proof.
  assert (Hsmall : match slice_step s with Some k => 1 <? k | None => false end
                   = false).
  { rewrite Hs. apply Z.ltb_ge. lia. }
  split; [|split].
  - intros. now apply walk_step_small.
  - intros array_shape pre post drop_axes pad Hpre Hpost.
    apply no_large_step_not_discontiguous.
    unfold has_large_step in *. rewrite existsb_app, Hpre. simpl.
    now rewrite Hsmall, Hpost.
  - intros d rest pad Hd.
    assert (Hi : exists start stop, slice_indices s d = Ok (start, stop, k)).
    { unfold slice_indices. rewrite Hs. cbv zeta.
      destruct (Z.eqb_spec k 0); [lia|].
      destruct (Z.ltb_spec d 0); [lia|]. eauto. }
    destruct Hi as (start & stop & Hi). exists start, stop. split; [exact Hi|].
    rewrite resulting_shape_no_drop. unfold assembled_shape. simpl.
    rewrite Hsmall, Hi. simpl.
    destruct rest as [|d' rest'].
    + simpl. now destruct pad.
    + replace (1 <? len (d :: d' :: rest')) with true
        by (symmetry; apply Z.ltb_lt; unfold len; simpl length; lia).
      destruct pad; simpl; [|reflexivity].
      change 1 with (Z.of_nat 1). now rewrite py_getslice_from.
Qed.

Lemma negative_step_passes_witness :
  resulting_shape_from_index [5; 3]
    [Slice (mk_slice None None (Some (-1)))] [] true = Ok [-5; 3].
Proof.
  assert (Hk : -1 < 0) by lia.
  destruct (negative_step_passes (mk_slice None None (Some (-1))) (-1)
              eq_refl Hk) as (_ & _ & Hshape).
  destruct (Hshape 5 [3] true) as (start & stop & Hi & Hr); [lia|].
  vm_compute in Hi. inversion Hi; subst. exact Hr.
Defined.

(** ** Shape resolver against basic indexing *)

Lemma len_app {A : Type} (a b : list A) : len (a ++ b) = len a + len b.
Proof. unfold len. rewrite length_app. lia. Qed.

Lemma slice_indices_step (s : slice) (d start stop step : Z) :
  slice_indices s d = Ok (start, stop, step) ->
  step = match slice_step s with None => 1 | Some k => k end /\ 0 <= d.
Proof.
  unfold slice_indices. cbv zeta.
  destruct (_ =? 0); [discriminate|].
  destruct (Z.ltb_spec d 0) as [|Hd]; [discriminate|].
  intros Heq; inversion Heq; subst. split; [reflexivity|lia].
Qed.

Lemma slice_indices_full (d start stop step : Z) :
  slice_indices full_slice d = Ok (start, stop, step) ->
  start = 0 /\ stop = d /\ step = 1 /\ 0 <= d.
Proof.
  unfold slice_indices, full_slice. simpl.
  destruct (Z.ltb_spec d 0) as [|Hd]; [discriminate|].
  intros Heq; inversion Heq; subst. repeat split; lia.
Qed.

Lemma range_len_unit (start stop : Z) :
  start <= stop -> range_len start stop 1 = stop - start.
Proof.
  intros Hle. unfold range_len. simpl.
  destruct (Z.ltb_spec start stop); [|lia].
  rewrite Z.div_1_r. lia.
Qed.

Lemma index_dims_repeat (fill : nat) :
  forall rest t out,
    index_dims rest (repeat (Slice full_slice) fill ++ t) = Ok out ->
    forward_unit_slices rest (repeat (Slice full_slice) fill ++ t) = true ->
    (fill <= length rest)%nat
    /\ exists out',
         index_dims (skipn fill rest) t = Ok out'
         /\ forward_unit_slices (skipn fill rest) t = true
         /\ out = firstn fill rest ++ out'.
Proof.
  induction fill as [|fill IH]; intros rest t out Hdims Hfwd.
  - simpl in *. split; [lia|]. now exists out.
  - simpl in Hdims, Hfwd.
    destruct rest as [|d rest']; [discriminate|].
    destruct (slice_indices full_slice d) as [[[a b] c]|e] eqn:Hi;
      simpl in Hdims; [|discriminate].
    destruct (index_dims rest' (repeat (Slice full_slice) fill ++ t))
      as [r|e] eqn:Hr; simpl in Hdims; [|discriminate].
    apply slice_indices_full in Hi as (-> & -> & -> & Hd).
    apply andb_true_iff in Hfwd as [_ Hfwd].
    destruct (IH rest' t r Hr Hfwd) as (Hle & out' & Ht & Hf & ->).
    split; [simpl; lia|].
    exists out'. simpl. repeat split; try assumption.
    inversion Hdims; subst. rewrite range_len_unit by lia.
    f_equal. lia.
Qed.

Lemma no_index_array_block (sel : list Selector) :
  no_index_array sel = true -> advanced_block sel = Ok ([], 0).
Proof.
  intros H. unfold advanced_block.
  replace (advanced_index_shapes sel) with (@nil (list nat)); [reflexivity|].
  induction sel as [|idx rest IH]; [reflexivity|].
  simpl in H. apply andb_true_iff in H as [Hi Hr].
  destruct idx; simpl in *; try discriminate; now apply IH.
Qed.

Lemma expand_ellipsis_length (fill : nat) (sel : list Selector) :
  (length (expand_ellipsis fill sel) + count is_ellipsis sel
   = length sel + count is_ellipsis sel * fill)%nat.
Proof.
  unfold count. induction sel as [|idx rest IH]; [reflexivity|].
  destruct idx; simpl; try lia.
  rewrite length_app, repeat_length. lia.
Qed.

Lemma existsb_count (p : Selector -> bool) (sel : list Selector) :
  existsb p sel = true -> (1 <= count p sel)%nat.
Proof.
  unfold count. induction sel as [|idx rest IH]; simpl; [discriminate|].
  destruct (p idx); simpl; [lia|assumption].
Qed.

Lemma count_le_length (p : Selector -> bool) (sel : list Selector) :
  (count p sel <= length sel)%nat.
Proof. apply filter_length_le. Qed.

(** The walk over a selection without index arrays follows the indexing
    of the expanded selection axis by axis; [pre] holds the source
    dimensions already consumed and [rest] those still to come. *)
Lemma walk_follows_index_dims (fill : nat) (n_index : Z)
  (sel : list Selector) :
  forall pre rest res out,
    no_index_array sel = true ->
    (existsb is_ellipsis sel = true ->
     len (pre ++ rest) - n_index + 1 = Z.of_nat fill) ->
    index_dims rest (expand_ellipsis fill sel) = Ok out ->
    forward_unit_slices rest (expand_ellipsis fill sel) = true ->
    exists o,
      walk (pre ++ rest) n_index sel (res, len pre)
      = Ok (res ++ o,
            len pre + Z.of_nat (length (expand_ellipsis fill sel)))
      /\ out = o ++ skipn (length (expand_ellipsis fill sel)) rest
      /\ (length (expand_ellipsis fill sel) <= length rest)%nat.
Proof.
  induction sel as [|idx sel' IH]; intros pre rest res out Hno Hell Hdims Hfwd.
  - exists []. simpl in *. rewrite app_nil_r, Z.add_0_r.
    inversion Hdims; subst. repeat split; lia.
  - simpl in Hno. apply andb_true_iff in Hno as [Hidx Hno].
    destruct idx as [i|s| |a]; [| | |discriminate].
    + (* Integer *)
      simpl in Hdims, Hfwd.
      destruct rest as [|d rest']; [discriminate|].
      destruct ((- d <=? i) && (i <? d)); [|discriminate].
      destruct (IH (pre ++ [d]) rest' res out Hno) as (o & Hw & Ho & Hle);
        try assumption.
      { intros He. rewrite <- app_assoc. apply Hell. exact He. }
      exists o. rewrite <- app_assoc in Hw. simpl in Hw |- *.
      rewrite len_app in Hw. change (len [d]) with 1 in Hw.
      rewrite Hw. repeat split; [|assumption|lia].
      do 2 f_equal. lia.
    + (* Slice *)
      simpl in Hdims, Hfwd.
      destruct rest as [|d rest']; [discriminate|].
      destruct (slice_indices s d) as [[[a b] c]|e] eqn:Hi;
        simpl in Hdims; [|rewrite andb_false_r in Hfwd; discriminate].
      apply andb_true_iff in Hfwd as [Hfwd Hrest].
      apply andb_true_iff in Hfwd as [Hstep Hab].
      apply Z.leb_le in Hab.
      destruct (index_dims rest' (expand_ellipsis fill sel')) as [r|e] eqn:Hr;
        simpl in Hdims; [|discriminate].
      destruct (slice_indices_step s d a b c Hi) as [Hc Hd].
      assert (Hc1 : c = 1).
      { rewrite Hc. destruct (slice_step s) as [k|]; [|reflexivity].
        now apply Z.eqb_eq in Hstep. }
      rewrite Hc1, range_len_unit in Hdims by lia.
      inversion Hdims; subst out.
      assert (Hsmall : match slice_step s with
                       | Some k => 1 <? k | None => false end = false).
      { destruct (slice_step s) as [k|]; [|reflexivity].
        apply Z.eqb_eq in Hstep. subst k. reflexivity. }
      destruct (IH (pre ++ [d]) rest' (res ++ [b - a]) r Hno)
        as (o & Hw & Ho & Hle); try assumption.
      { intros He. rewrite <- app_assoc. apply Hell. exact He. }
      exists ((b - a) :: o). rewrite <- app_assoc in Hw.
      change (walk (pre ++ d :: rest') n_index (Slice s :: sel') (res, len pre))
        with (st' <- walk_step (pre ++ d :: rest') n_index (res, len pre) (Slice s) ;;
              walk (pre ++ d :: rest') n_index sel' st').
      rewrite walk_step_small by exact Hsmall.
      cbn [fst snd]. rewrite py_getitem_middle. cbn [bind].
      rewrite Hi. cbn [bind].
      rewrite len_app in Hw. change (len [d]) with 1 in Hw.
      simpl app in Hw. rewrite Hw.
      rewrite <- app_assoc. simpl.
      repeat split; [|now subst r|lia].
      do 2 f_equal. lia.
    + (* Ellipsis *)
      simpl in Hdims, Hfwd.
      destruct (index_dims_repeat fill rest (expand_ellipsis fill sel') out
                  Hdims Hfwd) as (Hfill & out' & Hd' & Hf' & ->).
      specialize (Hell eq_refl).
      assert (Hlen : length (firstn fill rest) = fill)
        by (rewrite length_firstn; lia).
      destruct (IH (pre ++ firstn fill rest) (skipn fill rest)
                  (res ++ firstn fill rest) out' Hno)
        as (o & Hw & Ho & Hle); try assumption.
      { intros _. rewrite <- app_assoc, firstn_skipn. exact Hell. }
      exists (firstn fill rest ++ o).
      rewrite <- app_assoc, firstn_skipn in Hw.
      simpl. rewrite Hell.
      replace (py_getslice (pre ++ rest) (Some (len pre))
                 (Some (len pre + Z.of_nat fill)))
        with (firstn fill rest).
      2:{ unfold len at 1 2. rewrite py_getslice_window.
          - rewrite skipn_app, skipn_all, Nat.sub_diag. reflexivity.
          - rewrite length_app. lia. }
      rewrite len_app in Hw.
      replace (len (firstn fill rest)) with (Z.of_nat fill) in Hw
        by (unfold len; now rewrite Hlen).
      rewrite Hw. rewrite length_app, repeat_length.
      rewrite length_skipn in Hle.
      rewrite Nat2Z.inj_add, Z.add_assoc, <- !app_assoc.
      repeat split.
      * rewrite Ho, skipn_skipn.
        now rewrite (Nat.add_comm fill).
      * lia.
Qed.

(** C3 (as stated) fails: on the shape [(5,)] the slice [slice(3, 1)]
    selects nothing, so the materialised shape is [(0,)], while the
    resolver returns [(-2,)]; a reversed slice resolves to [(-5,)] instead
    of [(5,)]; a slice of step [2] materialises to [(2,)] while the
    resolver raises; without padding the axes behind a short selection are
    left out; an integer out of range materialises to nothing (an
    [IndexError]) while the resolver returns a shape. *)
Lemma resolver_differs_from_basic_indexing :
  (resulting_shape_from_index [5]
     [Slice (mk_slice (Some 3) (Some 1) None)] [] true = Ok [-2]
   /\ basic_index_shape [5]
        [Slice (mk_slice (Some 3) (Some 1) None)] = Ok [0])
  /\ (resulting_shape_from_index [5]
        [Slice (mk_slice None None (Some (-1)))] [] true = Ok [-5]
      /\ basic_index_shape [5]
           [Slice (mk_slice None None (Some (-1)))] = Ok [5])
  /\ (resulting_shape_from_index [4]
        [Slice (mk_slice None None (Some 2))] [] true
        = Raise (DiscontiguousArrayError (MsgArg step_msg))
      /\ basic_index_shape [4]
           [Slice (mk_slice None None (Some 2))] = Ok [2])
  /\ (resulting_shape_from_index [4; 6] [Slice full_slice] [] false = Ok [4]
      /\ basic_index_shape [4; 6] [Slice full_slice] = Ok [4; 6])
  /\ (resulting_shape_from_index [4] [Integer 9] [] true = Ok []
      /\ basic_index_shape [4] [Integer 9] = Raise IndexError).
Proof. repeat split; reflexivity. Qed.

(** C3 (amended): for a selection of integers, slices and [Ellipsis] that
    materialises against an array of the given shape, whose slices have
    step [None] or [1] and do not clamp to a start behind their stop, the
    resolver with empty [drop_axes] returns the materialised shape,
    provided padding is on or the selection covers every axis (it holds an
    [Ellipsis] or has one selector per axis). *)
Theorem resolver_matches_basic_indexing (array_shape : list Z)
  (index_tuple : list Selector) (pad : bool) (out : list Z)
  (Hbasic : no_index_array index_tuple = true)
  (Hshape : basic_index_shape array_shape index_tuple = Ok out)
  (Hforward : forward_unit_slices array_shape
                (expand_selection array_shape index_tuple) = true)
  (Hcover : pad = true
            \/ count is_ellipsis index_tuple = 1%nat
            \/ length index_tuple = length array_shape) :
  resulting_shape_from_index array_shape index_tuple [] pad = Ok out.
Proof.
  unfold basic_index_shape in Hshape.
  destruct (Nat.ltb_spec 1 (count is_ellipsis index_tuple)) as [|Hone];
    [discriminate|].
  destruct (Nat.ltb_spec (length array_shape) (indexed_axes index_tuple))
    as [|Haxes]; [discriminate|].
  unfold expand_selection in *.
  set (fill := (length array_shape - indexed_axes index_tuple)%nat) in *.
  pose proof (count_le_length is_ellipsis index_tuple) as Hcount.
  pose proof (expand_ellipsis_length fill index_tuple) as Hlen.
  unfold indexed_axes in *.
  destruct (walk_follows_index_dims fill (len index_tuple) index_tuple
              [] array_shape [] out Hbasic) as (o & Hw & Ho & Hle);
    try assumption.
  { intros He. apply existsb_count in He. unfold len, fill. simpl. lia. }
  rewrite resulting_shape_no_drop. unfold assembled_shape.
  rewrite (no_index_array_block index_tuple Hbasic). cbn [bind].
  simpl app in Hw. change (len (@nil Z)) with 0 in Hw. rewrite Hw.
  cbn [bind]. rewrite Z.add_0_l.
  set (c := length (expand_ellipsis fill index_tuple)) in *.
  destruct (Z.ltb_spec (Z.of_nat c) (len array_shape)) as [Hlt|Hge].
  - unfold len in Hlt.
    assert (Hpad : pad = true).
    { destruct Hcover as [Hp|[Hc|Hc]]; [assumption| |].
      - exfalso. rewrite Hc in *. unfold fill in Hlen. lia.
      - exfalso. unfold fill in Hlen.
        destruct (count is_ellipsis index_tuple) as [|[|n]]; simpl in *; lia. }
    subst pad. simpl. now rewrite py_getslice_from, Ho.
  - unfold len in Hge. simpl.
    rewrite Ho, skipn_all2 by lia. now rewrite app_nil_r.
Qed.

Lemma resolver_matches_basic_indexing_witness :
  resulting_shape_from_index [4; 5; 6]
    [Integer 1; Ellipsis; Slice (mk_slice (Some 1) (Some (-1)) None)]
    [] false
  = Ok [5; 4].
Proof.
  apply resolver_matches_basic_indexing;
    [reflexivity | reflexivity | reflexivity | right; left; reflexivity].
Defined.

(** ** Chunk batch builder *)




Lemma check_entry_ok (drop_axes : list Z) (info : BatchInfo) :
  check_entry drop_axes info = Ok tt <-> ranks_agree drop_axes info.
Proof.
  unfold check_entry, ranks_agree, entry_ranks.
  destruct (get_shape_for_selector (info_out_selection info) _ [] false)
    as [so|eo]; simpl.
  - destruct (get_shape_for_selector (info_chunk_selection info) _ drop_axes true)
      as [sc|ec]; simpl.
    + destruct (Nat.eqb_spec (length sc) (length so)) as [Heq|Hne].
      * split; [|reflexivity]. intros _. exists (length so). now rewrite Heq.
      * split; [discriminate|]. intros (n & H). inversion H; subst. lia.
    + split; [discriminate|]. intros (n & H). discriminate.
  - split; [discriminate|]. intros (n & H). discriminate.
Qed.













(** A whole-chunk read of a [(2, 2)] chunk: both selections are the two
    slices [slice(0, 2)]; the ranks agree and one descriptor is built. *)
Example whole_chunk_batch :
  make_chunk_info_for_rust_with_indices
    [mk_info "c/0/0"%string (mk_spec [2; 2] "int16"%string [])
       (Tuple [Slice (mk_slice (Some 0) (Some 2) None);
               Slice (mk_slice (Some 0) (Some 2) None)])
       (Tuple [Slice (mk_slice (Some 0) (Some 2) None);
               Slice (mk_slice (Some 0) (Some 2) None)])]
    [] []
  = ([("c/0/0"%string, [2; 2], "int16"%string, [])],
     Ok [(("c/0/0"%string, [2; 2], "int16"%string, []),
          [Slice (mk_slice (Some 0) (Some 2) None);
           Slice (mk_slice (Some 0) (Some 2) None)],
          [Slice (mk_slice (Some 0) (Some 2) None);
           Slice (mk_slice (Some 0) (Some 2) None)])]).
Proof. reflexivity. Qed.

(** * Further properties of the reducer *)

Lemma reduce_loop_Forall2 (selection ls : list Selector) :
  reduce_loop selection [] = Ok ls
  <-> Forall2 (fun d s => reduce_dim d = Ok s) selection ls.
Proof.
  revert ls; induction selection as [|d rest IH]; intros ls.
  - simpl. split.
    + intros H; inversion H; constructor.
    + intros H; inversion H; reflexivity.
  - rewrite reduce_loop_cons. split.
    + destruct (reduce_dim d) as [s|e] eqn:Hd; simpl; [|discriminate].
      destruct (reduce_loop rest []) as [r|e] eqn:Hr; simpl; [|discriminate].
      intros H; inversion H; subst. constructor; [assumption|].
      now apply IH.
    + intros H; inversion H as [|? s ? r Hd Hr]; subst.
      rewrite Hd. simpl. apply IH in Hr. now rewrite Hr.
Qed.

Lemma reduce_dim_kind (d s : Selector) :
  reduce_dim d = Ok s ->
  (is_slice s = true /\ d <> Ellipsis) \/ (s = Ellipsis /\ d = Ellipsis).
Proof.
  destruct d as [i|sl| |a]; simpl.
  - intros H; inversion H; subst. left. split; [reflexivity|discriminate].
  - intros H; inversion H; subst. left. split; [reflexivity|discriminate].
  - intros H; inversion H; subst. now right.
  - intros H. left. split; [|discriminate].
    destruct (_ =? 1)%nat.
    + destruct (ravel a); inversion H; reflexivity.
    + destruct (_ && _); [discriminate|].
      destruct (ravel a); inversion H; reflexivity.
Qed.

Lemma tuple_reduction_pointwise (sel ls : list Selector) :
  selector_tuple_to_slice_selection (Tuple sel) = Ok ls ->
  Forall2 (fun d s => reduce_dim d = Ok s) sel ls.
Proof.
  simpl. destruct (forallb is_slice sel) eqn:Hall.
  - intros H; inversion H; subst ls. clear H.
    induction sel as [|d rest IH]; [constructor|].
    simpl in Hall. apply andb_true_iff in Hall as [Hd Hrest].
    constructor; [|now apply IH].
    destruct d; try discriminate. reflexivity.
  - intros H. apply reduce_loop_Forall2.
    destruct sel as [|d rest]; [discriminate|].
    now rewrite make_slice_selection_nonempty in H by discriminate.
Qed.

(** X1: when a tuple of selectors reduces, the list returned has one
    element per selector of the tuple. *)
Theorem reduction_keeps_length (sel ls : list Selector)
  (Hred : selector_tuple_to_slice_selection (Tuple sel) = Ok ls) :
  length ls = length sel.
Proof.
  apply tuple_reduction_pointwise in Hred.
  symmetry. eapply Forall2_length. exact Hred.
Qed.

Lemma reduction_keeps_length_witness :
  length [unit_slice 7 8; unit_slice 2 5; Slice full_slice] = 3%nat.
Proof.
  apply (reduction_keeps_length
           [Integer 7; IndexArray (array1 [2; 3; 4]); Slice full_slice]).
  reflexivity.
Defined.

(** X2: every element of a reduced tuple is a slice or an [Ellipsis]; an
    [Ellipsis] comes out only where the tuple holds one, so a tuple
    without [Ellipsis] reduces to slices only. *)
Theorem reduction_yields_slices (sel ls : list Selector)
  (Hred : selector_tuple_to_slice_selection (Tuple sel) = Ok ls) :
  Forall (fun s => is_slice s = true \/ s = Ellipsis) ls
  /\ (existsb is_ellipsis sel = false -> forallb is_slice ls = true).
Proof.
  apply tuple_reduction_pointwise in Hred.
  induction Hred as [|d s sel' ls' Hd Hrest [IHall IHno]].
  - split; [constructor|reflexivity].
  - apply reduce_dim_kind in Hd. split.
    + constructor; [|assumption].
      destruct Hd as [[Hs _]|[Hs _]]; [now left|now right].
    + simpl. intros Hno. apply orb_false_iff in Hno as [Hd' Hno].
      destruct Hd as [[Hs _]|[_ He]].
      * rewrite Hs. simpl. now apply IHno.
      * subst d. discriminate.
Qed.

Lemma reduction_yields_slices_witness :
  forallb is_slice [unit_slice 7 8; unit_slice 2 5] = true.
Proof.
  apply (reduction_yields_slices
           [Integer 7; IndexArray (array1 [2; 3; 4])]); reflexivity.
Defined.

Lemma reduce_loop_fixed (ls : list Selector) :
  Forall (fun s => is_slice s = true \/ s = Ellipsis) ls ->
  reduce_loop ls [] = Ok ls.
Proof.
  intros H. apply reduce_loop_Forall2.
  induction H as [|s rest Hs Hrest IH]; constructor; [|assumption].
  destruct Hs as [Hs| ->]; [|reflexivity].
  destruct s; try discriminate. reflexivity.
Qed.

(** X3: reduction is idempotent: a list obtained by reducing a tuple
    reduces to itself. *)
Theorem reduction_idempotent (sel ls : list Selector)
  (Hred : selector_tuple_to_slice_selection (Tuple sel) = Ok ls) :
  selector_tuple_to_slice_selection (Tuple ls) = Ok ls.
Proof.
  apply tuple_reduction_pointwise in Hred.
  assert (Hkind : Forall (fun s => is_slice s = true \/ s = Ellipsis) ls).
  { induction Hred as [|d s sel' ls' Hd Hrest IH]; constructor;
      [|assumption].
    apply reduce_dim_kind in Hd.
    destruct Hd as [[Hs _]|[Hs _]]; [now left|now right]. }
  simpl. destruct (forallb is_slice ls) eqn:Hall; [reflexivity|].
  destruct ls as [|s rest]; [discriminate|].
  rewrite make_slice_selection_nonempty by discriminate.
  now apply reduce_loop_fixed.
Qed.

Lemma reduction_idempotent_witness :
  selector_tuple_to_slice_selection
    (Tuple [unit_slice 7 8; Ellipsis; unit_slice 2 5])
  = Ok [unit_slice 7 8; Ellipsis; unit_slice 2 5].
Proof.
  apply (reduction_idempotent
           [Integer 7; Ellipsis; IndexArray (array1 [2; 3; 4])]).
  reflexivity.
Defined.

Lemma Forall2_nth_middle {A B : Type} (R : A -> B -> Prop)
  (pre post : list A) (d : A) (ls : list B) :
  Forall2 R (pre ++ d :: post) ls ->
  exists s, nth_error ls (length pre) = Some s /\ R d s.
Proof.
  revert ls; induction pre as [|x pre IH]; intros ls H.
  - inversion H; subst. eexists; split; [reflexivity|assumption].
  - inversion H; subst. simpl. now apply IH.
Qed.

(** X4: in a tuple that reduces, an integer [i] becomes
    [slice(i, i+1, 1)] on its axis, and a slice or an [Ellipsis] is
    returned unchanged on its axis. *)
Theorem reduction_per_axis (pre post ls : list Selector) (d : Selector)
  (Hred : selector_tuple_to_slice_selection (Tuple (pre ++ d :: post)) = Ok ls) :
  (forall i, d = Integer i ->
     nth_error ls (length pre) = Some (unit_slice i (i + 1)))
  /\ (is_slice d = true \/ d = Ellipsis ->
      nth_error ls (length pre) = Some d).
Proof.
  apply tuple_reduction_pointwise in Hred.
  apply Forall2_nth_middle in Hred as (s & Hnth & Hd).
  split.
  - intros i ->. simpl in Hd. inversion Hd; subst. exact Hnth.
  - intros [Hs| ->].
    + destruct d; try discriminate. simpl in Hd. inversion Hd; subst.
      exact Hnth.
    + simpl in Hd. inversion Hd; subst. exact Hnth.
Qed.

Lemma reduction_per_axis_witness :
  nth_error [Slice full_slice; unit_slice 7 8; unit_slice 2 5] 1
  = Some (unit_slice 7 (7 + 1)).
Proof.
  destruct (reduction_per_axis [Slice full_slice]
              [IndexArray (array1 [2; 3; 4])]
              [Slice full_slice; unit_slice 7 8; unit_slice 2 5]
              (Integer 7) eq_refl) as [Hint _].
  apply (Hint 7). reflexivity.
Defined.

Lemma all_ones_is_run (x : Z) (t : list Z) :
  any_ne 1 (diff_from x t) = false -> x :: t = run x (S (length t)).
Proof.
  revert x; induction t as [|y t IH]; intros x H; [reflexivity|].
  simpl in H. apply orb_false_iff in H as [Hy Ht].
  apply negb_false_iff, Z.eqb_eq in Hy.
  assert (y = x + 1) by lia. subst y.
  change (run x (S (length ((x + 1) :: t))))
    with (x :: run (x + 1) (S (length t))).
  f_equal. now apply IH.
Qed.

Lemma all_zeros_is_repeat (x : Z) (t : list Z) :
  any_ne 0 (diff_from x t) = false -> x :: t = repeat x (S (length t)).
Proof.
  revert x; induction t as [|y t IH]; intros x H; [reflexivity|].
  simpl in H. apply orb_false_iff in H as [Hy Ht].
  apply negb_false_iff, Z.eqb_eq in Hy.
  assert (y = x) by lia. subst y.
  change (repeat x (S (length (x :: t)))) with (x :: repeat x (S (length t))).
  f_equal. now apply IH.
Qed.

Lemma reduce_dim_accepts (a : ndarray) (s : Selector) :
  Forall in_int64 (differences (ravel a)) ->
  in_int64 (last (ravel a) 0 + 1) ->
  reduce_dim (IndexArray a) = Ok s ->
  exists x n,
    (ravel a = run x (S n) /\ s = unit_slice x (x + Z.of_nat n + 1))
    \/ (ravel a = repeat x (S n) /\ s = unit_slice x (x + 1)).
Proof.
  intros Hdiff Hlast H.
  pose proof (np_diff_exact (ravel a) Hdiff) as Hexact.
  destruct (ravel a) as [|x [|y t]] eqn:Hflat.
  - unfold reduce_dim in H. rewrite Hflat in H. discriminate.
  - unfold reduce_dim in H. rewrite Hflat in H. simpl in H.
    inversion H; subst. exists x, 0%nat. left.
    split; [reflexivity|]. f_equal. lia.
  - rewrite <- Hflat in Hexact, Hlast.
    destruct (any_ne 1 (np_diff (ravel a))) eqn:H1.
    + destruct (any_ne 0 (np_diff (ravel a))) eqn:H0.
      * rewrite (reduce_dim_mixed a H1 H0) in H. discriminate.
      * rewrite (reduce_dim_uniform a x (y :: t) Hflat) in H;
          [|discriminate|now rewrite H1, H0].
        rewrite wrap64_exact in H by assumption.
        inversion H; subst s. rewrite Hexact, Hflat in H0.
        change (differences (x :: y :: t)) with (diff_from x (y :: t)) in H0.
        apply all_zeros_is_repeat in H0.
        exists x, (length (y :: t)). right. split; [exact H0|].
        rewrite Hflat, H0, last_repeat. reflexivity.
    + rewrite (reduce_dim_uniform a x (y :: t) Hflat) in H;
        [|discriminate|now rewrite H1].
      rewrite wrap64_exact in H by assumption.
      inversion H; subst s. rewrite Hexact, Hflat in H1.
      change (differences (x :: y :: t)) with (diff_from x (y :: t)) in H1.
      apply all_ones_is_run in H1.
      exists x, (length (y :: t)). left. split; [exact H1|].
      rewrite Hflat, H1, last_run. reflexivity.
Qed.

(** X5: for an index array of 64-bit positions whose successive
    differences and whose last position plus one are representable, the
    reducer accepts the array only if its flattened positions are a run
    [x, x+1, ..., x+n] or one position [x] repeated; the slice put on its
    axis is [slice(x, x+n+1, 1)] for the run and [slice(x, x+1, 1)] for
    the repeated position. *)
Theorem accepted_array_is_run_or_constant (pre post ls : list Selector)
  (a : ndarray)
  (Hdiff : Forall in_int64 (differences (ravel a)))
  (Hlast : in_int64 (last (ravel a) 0 + 1))
  (Hred : selector_tuple_to_slice_selection
            (Tuple (pre ++ IndexArray a :: post)) = Ok ls) :
  exists x n,
    (ravel a = run x (S n)
     /\ nth_error ls (length pre)
        = Some (unit_slice x (x + Z.of_nat n + 1)))
    \/ (ravel a = repeat x (S n)
        /\ nth_error ls (length pre) = Some (unit_slice x (x + 1))).
Proof.
  apply tuple_reduction_pointwise in Hred.
  apply Forall2_nth_middle in Hred as (s & Hnth & Hd).
  apply (reduce_dim_accepts a s Hdiff Hlast) in Hd
    as (x & n & [[Hr ->]|[Hr ->]]);
    exists x, n; [left|right]; split; assumption.
Qed.

Lemma accepted_array_is_run_or_constant_witness :
  exists x n,
    (ravel (array1 [2; 3; 4]) = run x (S n)
     /\ nth_error [unit_slice 7 8; unit_slice 2 5] 1
        = Some (unit_slice x (x + Z.of_nat n + 1)))
    \/ (ravel (array1 [2; 3; 4]) = repeat x (S n)
        /\ nth_error [unit_slice 7 8; unit_slice 2 5] 1
           = Some (unit_slice x (x + 1))).
Proof.
  apply (accepted_array_is_run_or_constant [Integer 7] []
           [unit_slice 7 8; unit_slice 2 5] (array1 [2; 3; 4])).
  - repeat constructor; unfold int64_min, int64_max; simpl; lia.
  - unfold in_int64, int64_min, int64_max. simpl. lia.
  - reflexivity.
Defined.

Lemma tuple_reduction_raise (pre post lp : list Selector) (d : Selector)
  (e : exn) :
  reduce_loop pre [] = Ok lp ->
  reduce_dim d = Raise e ->
  selector_tuple_to_slice_selection (Tuple (pre ++ d :: post)) = Raise e.
Proof.
  intros Hpre Hd. simpl.
  replace (forallb is_slice (pre ++ d :: post)) with false.
  - eapply make_slice_selection_raise; eassumption.
  - symmetry. rewrite forallb_app. simpl.
    destruct d; simpl in *; try discriminate; apply andb_false_r.
Qed.

(** X6: an index array without elements is not reduced to an empty
    slice: after axes that reduce, it makes the reducer raise
    [IndexError]. *)
Theorem empty_array_raises_index_error (pre post lp : list Selector)
  (a : ndarray)
  (Hempty : ravel a = [])
  (Hpre : reduce_loop pre [] = Ok lp) :
  selector_tuple_to_slice_selection (Tuple (pre ++ IndexArray a :: post))
  = Raise IndexError.
Proof.
  apply (tuple_reduction_raise pre post lp _ _ Hpre).
  unfold reduce_dim. rewrite Hempty. reflexivity.
Qed.

Lemma empty_array_raises_index_error_witness :
  selector_tuple_to_slice_selection
    (Tuple ([Integer 3] ++ IndexArray (array1 []) :: [Slice full_slice]))
  = Raise IndexError.
Proof.
  apply (empty_array_raises_index_error [Integer 3] [Slice full_slice]
           [unit_slice 3 4]); reflexivity.
Defined.

Lemma reduce_loop_integers (l : list Z) :
  reduce_loop (map Integer l) []
  = Ok (map (fun i => unit_slice i (i + 1)) l).
Proof.
  apply reduce_loop_Forall2.
  induction l as [|i l IH]; simpl; constructor; [reflexivity|assumption].
Qed.

(** X7: a bare one-dimensional array is not reduced as one axis: it is
    traversed element by element and every position [i] becomes a slice
    [slice(i, i+1, 1)] of its own, whether or not the positions are
    contiguous. *)
Theorem bare_array_reduces_elementwise (positions : list Z) :
  selector_tuple_to_slice_selection (BareArray (array1 positions))
  = Ok (map (fun i => unit_slice i (i + 1)) positions).
Proof.
  simpl. destruct positions as [|i l]; [reflexivity|].
  change (forallb is_slice (map Integer (i :: l))) with false. cbv iota.
  rewrite make_slice_selection_nonempty by discriminate.
  apply reduce_loop_integers.
Qed.

Lemma reduce_dim_raises (d : Selector) (e : exn) :
  reduce_dim d = Raise e ->
  e = IndexError \/ exists diff, e = DiscontiguousArrayError (DiffArg diff).
Proof.
  destruct d as [i|s| |a]; simpl; try discriminate.
  destruct (_ =? 1)%nat.
  - destruct (ravel a); [|discriminate]. intros H; inversion H; now left.
  - destruct (_ && _).
    + intros H; inversion H. right. eauto.
    + destruct (ravel a); [|discriminate]. intros H; inversion H; now left.
Qed.

Lemma reduce_loop_raises (selection ls : list Selector) (e : exn) :
  reduce_loop selection ls = Raise e ->
  e = IndexError \/ exists diff, e = DiscontiguousArrayError (DiffArg diff).
Proof.
  revert ls; induction selection as [|d rest IH]; intros ls; simpl;
    [discriminate|].
  destruct (reduce_dim d) as [s|e'] eqn:Hd; simpl; [apply IH|].
  intros H; inversion H; subst. now apply reduce_dim_raises in Hd.
Qed.

(** X8: through [selector_tuple_to_slice_selection] the reducer raises
    only [IndexError], [TypeError] (for a bare array of rank 0) or
    [DiscontiguousArrayError] carrying a difference array; the closing
    check of [make_slice_selection], with its message, is never what
    fails. *)
Theorem reduction_failures (selector_tuple : SelectorTuple) (e : exn)
  (Hraise : selector_tuple_to_slice_selection selector_tuple = Raise e) :
  (e = IndexError
   \/ (e = TypeError
       /\ exists a, selector_tuple = BareArray a /\ nd_shape a = [])
   \/ exists diff, e = DiscontiguousArrayError (DiffArg diff))
  /\ forall msg, e <> DiscontiguousArrayError (MsgArg msg).
Proof.
  assert (Hloop : forall sel,
             forallb is_slice sel = false ->
             make_slice_selection sel = Raise e ->
             e = IndexError
             \/ exists diff, e = DiscontiguousArrayError (DiffArg diff)).
  { intros sel Hall H. destruct sel as [|d rest]; [discriminate|].
    rewrite make_slice_selection_nonempty in H by discriminate.
    now apply reduce_loop_raises in H. }
  assert (Hkinds :
            e = IndexError
            \/ (e = TypeError
                /\ exists a, selector_tuple = BareArray a /\ nd_shape a = [])
            \/ exists diff, e = DiscontiguousArrayError (DiffArg diff)).
  { destruct selector_tuple as [s|a|sel]; simpl in Hraise.
    - discriminate.
    - unfold iter_ndarray in Hraise.
      destruct (nd_shape a) as [|n [|m rest]] eqn:Hshape; simpl in Hraise.
      + inversion Hraise. right. left. split; [reflexivity|]. now exists a.
      + destruct (forallb is_slice _) eqn:Hall; [discriminate|].
        destruct (Hloop _ Hall Hraise) as [H|H]; [now left|now right; right].
      + destruct (forallb is_slice _) eqn:Hall; [discriminate|].
        destruct (Hloop _ Hall Hraise) as [H|H]; [now left|now right; right].
    - destruct (forallb is_slice sel) eqn:Hall; [discriminate|].
      destruct (Hloop _ Hall Hraise) as [H|H]; [now left|now right; right]. }
  split; [exact Hkinds|].
  intros msg ->.
  destruct Hkinds as [H|[[H _]|[diff H]]]; discriminate.
Qed.

Lemma reduction_failures_witness :
  DiscontiguousArrayError (DiffArg [2])
  <> DiscontiguousArrayError (MsgArg vindex_msg).
Proof.
  apply (reduction_failures (Tuple [IndexArray (array1 [2; 4])])).
  reflexivity.
Defined.

(** * Further properties of the shape resolver *)

(** X9: resolving a shape raises only [IndexError], [ValueError] or the
    [DiscontiguousArrayError] of the step check, and the latter only when
    the selection holds a slice of step greater than 1. *)
Theorem shape_resolution_failures (selector_tuple : SelectorTuple)
  (shape drop_axes : list Z) (pad : bool) (e : exn)
  (Hraise : get_shape_for_selector selector_tuple shape drop_axes pad
            = Raise e) :
  e = IndexError \/ e = ValueError
  \/ (e = DiscontiguousArrayError (MsgArg step_msg)
      /\ exists sel, has_large_step sel = true
                     /\ (selector_tuple = Tuple sel
                         \/ exists s, selector_tuple = BareSlice s
                                      /\ sel = [Slice s])).
Proof.
  destruct selector_tuple as [s|a|sel]; simpl in Hraise;
    apply resulting_shape_raises in Hraise; inversion Hraise; subst;
    try (now left); try (now right; left).
  - right. right. split; [reflexivity|].
    exists [Slice s]. split; [assumption|]. right. now exists s.
  - right. right. split; [reflexivity|].
    exists sel. split; [assumption|now left].
Qed.

Lemma shape_resolution_failures_witness :
  IndexError = IndexError \/ IndexError = ValueError
  \/ (IndexError = DiscontiguousArrayError (MsgArg step_msg)
      /\ exists sel, has_large_step sel = true
                     /\ (Tuple [Slice full_slice; Slice full_slice] = Tuple sel
                         \/ exists s,
                              Tuple [Slice full_slice; Slice full_slice]
                              = BareSlice s /\ sel = [Slice s])).
Proof.
  apply (shape_resolution_failures
           (Tuple [Slice full_slice; Slice full_slice]) [4] [] true).
  reflexivity.
Defined.

Lemma assembled_shape_empty (array_shape : list Z) (pad : bool) :
  assembled_shape array_shape [] pad
  = Ok (if pad then array_shape else []).
Proof.
  unfold assembled_shape.
  change (advanced_block []) with (@Ok walk_state ([], 0)).
  cbn [bind walk app].
  destruct (Z.ltb_spec 0 (len array_shape)) as [Hlt|Hge]; cbn [andb].
  - destruct pad; [|reflexivity].
    change 0 with (Z.of_nat 0). now rewrite py_getslice_from.
  - destruct array_shape; [now destruct pad|].
    unfold len in Hge. simpl in Hge. lia.
Qed.

Lemma assembled_shape_ellipsis (array_shape : list Z) (pad : bool) :
  assembled_shape array_shape [Ellipsis] pad = Ok array_shape.
Proof.
  unfold assembled_shape.
  change (advanced_block [Ellipsis]) with (@Ok walk_state ([], 0)).
  cbn [bind walk walk_step app].
  change (len [Ellipsis]) with 1.
  replace (0 + (len array_shape - 1 + 1))
    with (Z.of_nat 0 + Z.of_nat (length array_shape))
    by (unfold len; lia).
  change (Some 0) with (Some (Z.of_nat 0)).
  rewrite py_getslice_window by (simpl; lia).
  rewrite skipn_O, firstn_all.
  replace (Z.of_nat 0 + Z.of_nat (length array_shape) <? len array_shape)
    with false by (symmetry; apply Z.ltb_ge; unfold len; lia).
  reflexivity.
Qed.

(** X10: the empty selection resolves to the whole array shape under
    padding and to the empty shape without it; a lone [Ellipsis] resolves
    to the whole array shape with or without padding; [drop_axes] is
    applied to either. *)
Theorem empty_and_ellipsis_selection (array_shape drop_axes : list Z)
  (pad : bool) :
  resulting_shape_from_index array_shape [] drop_axes pad
  = Ok (remove_axes drop_axes (if pad then array_shape else []))
  /\ resulting_shape_from_index array_shape [Ellipsis] drop_axes pad
     = Ok (remove_axes drop_axes array_shape).
Proof.
  unfold resulting_shape_from_index.
  rewrite assembled_shape_empty, assembled_shape_ellipsis. cbn [bind].
  now rewrite !drop_axes_filter_remove.
Qed.

Lemma advanced_index_shapes_app (pre post : list Selector) :
  advanced_index_shapes (pre ++ post)
  = advanced_index_shapes pre ++ advanced_index_shapes post.
Proof.
  induction pre as [|idx pre IH]; [reflexivity|].
  destruct idx; simpl; now rewrite IH.
Qed.

(** X11: the value of an integer selector plays no part: it is never
    checked against the dimension it consumes, and replacing it by any
    other integer leaves the outcome of the resolver unchanged. *)
Theorem integer_value_is_ignored (array_shape : list Z)
  (pre post : list Selector) (i j : Z) (drop_axes : list Z) (pad : bool) :
  resulting_shape_from_index array_shape (pre ++ Integer i :: post)
    drop_axes pad
  = resulting_shape_from_index array_shape (pre ++ Integer j :: post)
      drop_axes pad.
Proof.
  assert (Hblock : advanced_block (pre ++ Integer i :: post)
                   = advanced_block (pre ++ Integer j :: post)).
  { unfold advanced_block. now rewrite !advanced_index_shapes_app. }
  unfold resulting_shape_from_index, assembled_shape.
  rewrite Hblock.
  replace (len (pre ++ Integer i :: post))
    with (len (pre ++ Integer j :: post))
    by (unfold len; now rewrite !length_app).
  destruct (advanced_block (pre ++ Integer j :: post)) as [st0|e];
    [|reflexivity].
  cbn [bind]. rewrite !walk_app.
  destruct (walk array_shape (len (pre ++ Integer j :: post)) pre st0)
    as [[res bsi]|e]; reflexivity.
Qed.

Lemma walk_skips_arrays (array_shape : list Z) (n_index : Z)
  (sel : list Selector) :
  forall st,
    walk array_shape n_index sel st
    = walk array_shape n_index (non_arrays sel) st.
Proof.
  induction sel as [|idx rest IH]; intros [res bsi]; [reflexivity|].
  destruct idx as [i|s| |a]; simpl.
  - apply IH.
  - destruct (if match slice_step s with Some k => 1 <? k | None => false end
              then _ else _); simpl; [apply IH|reflexivity].
  - apply IH.
  - apply IH.
Qed.

Lemma length_split_arrays (sel : list Selector) :
  length sel
  = (length (non_arrays sel) + length (advanced_index_shapes sel))%nat.
Proof.
  induction sel as [|idx rest IH]; [reflexivity|].
  destruct idx; simpl; lia.
Qed.

(** X12: where the index arrays stand among the other selectors plays no
    part: two selections with the same index-array shapes in the same
    order and the same other selectors in the same order resolve alike. *)
Theorem array_positions_are_ignored (array_shape : list Z)
  (sel1 sel2 : list Selector) (drop_axes : list Z) (pad : bool)
  (Harrays : advanced_index_shapes sel1 = advanced_index_shapes sel2)
  (Hothers : non_arrays sel1 = non_arrays sel2) :
  resulting_shape_from_index array_shape sel1 drop_axes pad
  = resulting_shape_from_index array_shape sel2 drop_axes pad.
Proof.
  assert (Hblock : advanced_block sel1 = advanced_block sel2).
  { unfold advanced_block. now rewrite Harrays. }
  unfold resulting_shape_from_index, assembled_shape.
  rewrite Hblock.
  replace (len sel1) with (len sel2)
    by (unfold len; now rewrite (length_split_arrays sel1),
          (length_split_arrays sel2), Harrays, Hothers).
  destruct (advanced_block sel2) as [st0|e]; [|reflexivity].
  cbn [bind].
  now rewrite (walk_skips_arrays array_shape (len sel2) sel1), Hothers,
    <- walk_skips_arrays.
Qed.

Lemma array_positions_are_ignored_witness :
  resulting_shape_from_index [4; 6]
    [Slice full_slice; IndexArray (array1 [1; 2])] [] true
  = resulting_shape_from_index [4; 6]
      [IndexArray (array1 [1; 2]); Slice full_slice] [] true.
Proof.
  apply array_positions_are_ignored; reflexivity.
Defined.

(** X13: a single index array resolves to its own shape and consumes one
    source dimension: under padding the dimensions of the array shape
    after the first follow. *)
Theorem single_array_selection (array_shape : list Z) (a : ndarray)
  (pad : bool) :
  resulting_shape_from_index array_shape [IndexArray a] [] pad
  = Ok (map Z.of_nat (nd_shape a)
          ++ (if pad then skipn 1 array_shape else [])).
Proof.
  rewrite resulting_shape_no_drop.
  unfold assembled_shape, advanced_block, np_broadcast_shapes.
  cbn [advanced_index_shapes broadcast_all_rev].
  replace (broadcast_rev [] (rev (nd_shape a))) with (Ok (rev (nd_shape a)))
    by (now destruct (rev (nd_shape a))).
  cbn [bind walk walk_step]. rewrite rev_involutive.
  change (len [nd_shape a]) with (Z.of_nat 1).
  rewrite py_getslice_from.
  destruct (Z.ltb_spec (Z.of_nat 1) (len array_shape)) as [Hlt|Hge];
    cbn [andb].
  - destruct pad; [reflexivity|now rewrite app_nil_r].
  - replace (skipn 1 array_shape) with (@nil Z).
    + destruct pad; now rewrite app_nil_r.
    + symmetry. destruct array_shape as [|d [|d' rest]]; try reflexivity.
      unfold len in Hge. simpl in Hge. lia.
Qed.

Lemma walk_rank (array_shape : list Z) (n_index : Z) (sel : list Selector) :
  existsb is_ellipsis sel = false ->
  forall res bsi res' bsi',
    walk array_shape n_index sel (res, bsi) = Ok (res', bsi') ->
    length res' = (length res + count is_slice sel)%nat.
Proof.
  unfold count.
  induction sel as [|idx rest IH]; intros Hno res bsi res' bsi' Hw.
  - simpl in *. inversion Hw; subst. lia.
  - simpl in Hno. apply orb_false_iff in Hno as [Hidx Hno].
    destruct idx as [i|s| |a]; [| |discriminate|]; simpl in Hw |- *.
    + now apply (IH Hno) in Hw.
    + destruct (match slice_step s with Some k => 1 <? k | None => false end);
        [discriminate|].
      destruct (py_getitem array_shape bsi) as [dim|e]; [|discriminate].
      simpl in Hw.
      destruct (slice_indices s dim) as [[[start stop] step]|e];
        [|discriminate].
      simpl in Hw. apply (IH Hno) in Hw.
      rewrite length_app in Hw. simpl in Hw. lia.
    + now apply (IH Hno) in Hw.
Qed.

(** X14: without padding, a selection holding no [Ellipsis] resolves to
    a shape whose rank is the rank of the broadcast block of its index
    arrays plus the number of its slices; integers add nothing.  Without
    index arrays the rank is the number of slices. *)
Theorem resolved_rank (array_shape : list Z) (sel : list Selector)
  (out : list Z)
  (Hno : existsb is_ellipsis sel = false)
  (Hout : resulting_shape_from_index array_shape sel [] false = Ok out) :
  (exists block consumed,
     advanced_block sel = Ok (block, consumed)
     /\ length out = (length block + count is_slice sel)%nat)
  /\ (no_index_array sel = true -> length out = count is_slice sel).
Proof.
  rewrite resulting_shape_no_drop in Hout. unfold assembled_shape in Hout.
  destruct (advanced_block sel) as [[block consumed]|e] eqn:Hb;
    [|discriminate].
  cbn [bind] in Hout.
  destruct (walk array_shape (len sel) sel (block, consumed))
    as [[res bsi]|e] eqn:Hw; [|discriminate].
  cbn [bind] in Hout. rewrite andb_false_r in Hout.
  inversion Hout; subst out.
  apply (walk_rank _ _ _ Hno) in Hw.
  split.
  - now exists block, consumed.
  - intros Hbasic. rewrite (no_index_array_block sel Hbasic) in Hb.
    inversion Hb; subst. simpl in Hw. exact Hw.
Qed.

Lemma resolved_rank_witness :
  length [3; 5] = count is_slice
                    [Slice (mk_slice (Some 0) (Some 3) None); Integer 1;
                     Slice (mk_slice (Some 0) (Some 5) None)].
Proof.
  apply (resolved_rank [4; 2; 6]
           [Slice (mk_slice (Some 0) (Some 3) None); Integer 1;
            Slice (mk_slice (Some 0) (Some 5) None)] [3; 5]);
    reflexivity.
Defined.

Lemma in_axes_outside (n i : nat) (drop_axes : list Z) :
  Forall (outside_rank n) drop_axes -> (i < n)%nat ->
  in_axes i drop_axes = false.
Proof.
  unfold in_axes. intros Hall Hi.
  induction Hall as [|axis rest Haxis Hrest IH]; [reflexivity|].
  simpl. rewrite IH, orb_false_r.
  apply Z.eqb_neq. unfold outside_rank in Haxis. lia.
Qed.

Lemma remove_axes_from_outside (n : nat) (drop_axes : list Z) (l : list Z) :
  Forall (outside_rank n) drop_axes ->
  forall i, (i + length l <= n)%nat -> remove_axes_from i drop_axes l = l.
Proof.
  intros Hall. induction l as [|d rest IH]; intros i Hi; [reflexivity|].
  simpl in *. rewrite (in_axes_outside n i drop_axes Hall) by lia.
  f_equal. apply IH. lia.
Qed.

(** X15: an entry of [drop_axes] that is negative or not below the rank
    of the assembled shape removes nothing; in particular negative axis
    numbers do not count from the end. *)
Theorem outside_axes_drop_nothing (array_shape : list Z)
  (sel : list Selector) (drop_axes : list Z) (pad : bool)
  (assembled : list Z)
  (Hasm : resulting_shape_from_index array_shape sel [] pad = Ok assembled)
  (Hout : Forall (outside_rank (length assembled)) drop_axes) :
  resulting_shape_from_index array_shape sel drop_axes pad = Ok assembled.
Proof.
  rewrite resulting_shape_no_drop in Hasm.
  unfold resulting_shape_from_index. rewrite Hasm. cbn [bind].
  rewrite drop_axes_filter_remove. unfold remove_axes.
  f_equal. apply (remove_axes_from_outside (length assembled)); [assumption|].
  simpl. lia.
Qed.

Lemma outside_axes_drop_nothing_witness :
  resulting_shape_from_index [4; 6] [Slice full_slice] [-1; 2] true
  = Ok [4; 6].
Proof.
  apply outside_axes_drop_nothing; [reflexivity|].
  repeat constructor; unfold outside_rank; simpl; lia.
Defined.

(** * Further properties of the batch builder *)

Lemma check_entries_ok (drop_axes : list Z) (batch_info : list BatchInfo) :
  check_entries drop_axes batch_info = Ok tt
  <-> Forall (ranks_agree drop_axes) batch_info.
Proof.
  induction batch_info as [|info rest IH]; simpl.
  - split; [constructor|reflexivity].
  - destruct (check_entry drop_axes info) as [[]|e] eqn:Hinfo; simpl.
    + apply check_entry_ok in Hinfo. rewrite IH. split.
      * intros H. now constructor.
      * intros H. now inversion H.
    + split; [discriminate|].
      intros H. inversion H as [|? ? Hagree _]; subst.
      apply check_entry_ok in Hagree. congruence.
Qed.

Lemma build_entry_ok (info : BatchInfo) (tr tr' : list ChunkPrimitive)
  (item : BatchItem) :
  build_entry info tr = (tr', Ok item) ->
  tr' = tr ++ [entry_primitive info]
  /\ fst (fst item) = entry_primitive info
  /\ entry_reduces info (snd (fst item)) (snd item).
Proof.
  unfold build_entry, bindB, produced, lift, ret, entry_reduces,
    entry_primitive.
  destruct (selector_tuple_to_slice_selection (info_out_selection info))
    as [out|e]; [|discriminate].
  destruct (selector_tuple_to_slice_selection (info_chunk_selection info))
    as [chunk|e]; [|discriminate].
  intros H; inversion H; subst. simpl. repeat split.
Qed.

Lemma build_entries_ok (batch_info : list BatchInfo) :
  forall tr tr' items,
    build_entries batch_info tr = (tr', Ok items) ->
    tr' = tr ++ make_chunk_info_for_rust batch_info
    /\ map (fun item => fst (fst item)) items
       = make_chunk_info_for_rust batch_info
    /\ Forall2 (fun info item =>
                  entry_reduces info (snd (fst item)) (snd item))
               batch_info items.
Proof.
  induction batch_info as [|info rest IH]; intros tr tr' items H.
  - simpl in H. inversion H; subst. simpl. rewrite app_nil_r.
    repeat split. constructor.
  - simpl in H. unfold bindB at 1 in H.
    destruct (build_entry info tr) as [tr1 [item|e]] eqn:Hb; [|discriminate].
    unfold bindB at 1 in H.
    destruct (build_entries rest tr1) as [tr2 [rest_items|e]] eqn:Hr;
      [|discriminate].
    unfold ret in H. inversion H; subst.
    apply build_entry_ok in Hb as (-> & Hprim & Hred).
    apply IH in Hr as (-> & Hmap & Hall).
    simpl. rewrite <- app_assoc. simpl. fold (entry_primitive info).
    repeat split.
    + now rewrite Hprim, Hmap.
    + now constructor.
Qed.

Lemma builder_success_parts (batch_info : list BatchInfo)
  (drop_axes : list Z) (tr tr' : list ChunkPrimitive)
  (items : list BatchItem) :
  make_chunk_info_for_rust_with_indices batch_info drop_axes tr
  = (tr', Ok items) ->
  Forall2 (fun info item => entry_reduces info (snd (fst item)) (snd item))
          batch_info items
  /\ Forall (ranks_agree drop_axes) batch_info.
Proof.
  unfold make_chunk_info_for_rust_with_indices, bindB, lift. intros Hrun.
  destruct (check_entries drop_axes batch_info) as [[]|e] eqn:Hcheck;
    [|discriminate].
  apply check_entries_ok in Hcheck.
  apply build_entries_ok in Hrun as (_ & _ & Hall). now split.
Qed.

(** X16: when the builder returns, it returns one item per batch entry,
    in order; the descriptors of the items are those
    [make_chunk_info_for_rust] builds for the same batch, produced in that
    order; the two slice lists of every item are the reductions of the
    entry's output and chunk selections; and the two resolved shapes of
    every entry have the same rank. *)
Theorem builder_success (batch_info : list BatchInfo) (drop_axes : list Z)
  (produced_before produced_after : list ChunkPrimitive)
  (items : list BatchItem)
  (Hrun : make_chunk_info_for_rust_with_indices batch_info drop_axes
            produced_before = (produced_after, Ok items)) :
  length items = length batch_info
  /\ map (fun item => fst (fst item)) items
     = make_chunk_info_for_rust batch_info
  /\ produced_after = produced_before ++ make_chunk_info_for_rust batch_info
  /\ Forall2 (fun info item =>
                entry_reduces info (snd (fst item)) (snd item))
             batch_info items
  /\ Forall (ranks_agree drop_axes) batch_info.
Proof.
  unfold make_chunk_info_for_rust_with_indices, bindB, lift in Hrun.
  destruct (check_entries drop_axes batch_info) as [[]|e] eqn:Hcheck;
    [|discriminate].
  apply check_entries_ok in Hcheck.
  apply build_entries_ok in Hrun as (Htr & Hmap & Hall).
  repeat split; try assumption.
  symmetry. eapply Forall2_length. exact Hall.
Qed.

Lemma builder_success_witness :
  length [(("c/0/0"%string, [2; 2], "int16"%string, @nil Byte.byte),
           [Slice full_slice], [unit_slice 1 2; Slice full_slice])]
  = length [mk_info "c/0/0"%string (mk_spec [2; 2] "int16"%string [])
              (Tuple [Integer 1; Slice full_slice])
              (BareSlice full_slice)].
Proof.
  apply (builder_success
           [mk_info "c/0/0"%string (mk_spec [2; 2] "int16"%string [])
              (Tuple [Integer 1; Slice full_slice])
              (BareSlice full_slice)]
           [] [] [("c/0/0"%string, [2; 2], "int16"%string, [])]).
  reflexivity.
Defined.

Lemma build_entry_reduces (info : BatchInfo) (out chunk : list Selector)
  (tr : list ChunkPrimitive) :
  entry_reduces info out chunk ->
  build_entry info tr
  = (tr ++ [entry_primitive info], Ok (entry_primitive info, out, chunk)).
Proof.
  intros [Ho Hc].
  unfold build_entry, bindB, produced, lift, ret, entry_primitive.
  now rewrite Ho, Hc.
Qed.

Lemma build_entry_fails (info : BatchInfo) (e : exn)
  (tr : list ChunkPrimitive) :
  entry_fails info e ->
  build_entry info tr = (tr ++ [entry_primitive info], Raise e).
Proof.
  intros [Ho|[[out Ho] Hc]];
    unfold build_entry, bindB, produced, lift, ret, entry_primitive.
  - now rewrite Ho.
  - now rewrite Ho, Hc.
Qed.

Lemma build_entries_reduce (batch_info : list BatchInfo) :
  Forall (fun info => exists out chunk, entry_reduces info out chunk)
         batch_info ->
  forall tr, exists items,
    build_entries batch_info tr
    = (tr ++ make_chunk_info_for_rust batch_info, Ok items).
Proof.
  induction 1 as [|info rest (out & chunk & Hinfo) Hrest IH]; intros tr.
  - exists []. simpl. unfold ret. now rewrite app_nil_r.
  - destruct (IH (tr ++ [entry_primitive info])) as [items Hitems].
    exists ((entry_primitive info, out, chunk) :: items).
    simpl. unfold bindB at 1.
    rewrite (build_entry_reduces info out chunk tr Hinfo).
    unfold bindB at 1. rewrite Hitems. unfold ret.
    now rewrite <- app_assoc.
Qed.

(** X17: the builder returns a list exactly when the two resolved shapes
    of every entry have the same rank and both selections of every entry
    reduce to slice lists. *)
Theorem builder_succeeds_iff (batch_info : list BatchInfo)
  (drop_axes : list Z) (produced_before : list ChunkPrimitive) :
  (exists items,
     snd (make_chunk_info_for_rust_with_indices batch_info drop_axes
            produced_before) = Ok items)
  <-> Forall (ranks_agree drop_axes) batch_info
      /\ Forall (fun info => exists out chunk, entry_reduces info out chunk)
                batch_info.
Proof.
  split.
  - intros [items Hrun].
    destruct (make_chunk_info_for_rust_with_indices batch_info drop_axes
                produced_before) as [tr r] eqn:Heq.
    simpl in Hrun. subst r.
    apply builder_success_parts in Heq as (Hall & Hagree).
    split; [assumption|].
    clear Hagree. induction Hall as [|info item rest items' Hinfo Hrest IH];
      constructor; [eauto|assumption].
  - intros [Hagree Hred].
    apply check_entries_ok in Hagree.
    destruct (build_entries_reduce batch_info Hred produced_before)
      as [items Hitems].
    exists items.
    unfold make_chunk_info_for_rust_with_indices, bindB, lift.
    now rewrite Hagree, Hitems.
Qed.

Lemma builder_succeeds_iff_witness :
  exists items,
    snd (make_chunk_info_for_rust_with_indices
           [mk_info "c/0/0"%string (mk_spec [2; 2] "int16"%string [])
              (Tuple [Integer 1; Slice full_slice])
              (BareSlice full_slice)] [] []) = Ok items.
Proof.
  apply builder_succeeds_iff. split.
  - constructor; [|constructor]. exists 1%nat. reflexivity.
  - constructor; [|constructor].
    exists [Slice full_slice], [unit_slice 1 2; Slice full_slice].
    split; reflexivity.
Defined.

Lemma build_entries_fail (pre post : list BatchInfo) (info : BatchInfo)
  (e : exn) :
  Forall (fun info => exists out chunk, entry_reduces info out chunk) pre ->
  entry_fails info e ->
  forall tr,
    build_entries (pre ++ info :: post) tr
    = (tr ++ make_chunk_info_for_rust pre ++ [entry_primitive info], Raise e).
Proof.
  intros Hpre Hinfo.
  induction Hpre as [|x rest (out & chunk & Hx) Hrest IH]; intros tr.
  - simpl. unfold bindB at 1.
    now rewrite (build_entry_fails info e tr Hinfo).
  - simpl. unfold bindB at 1.
    rewrite (build_entry_reduces x out chunk tr Hx).
    unfold bindB at 1. rewrite IH.
    fold (entry_primitive x). now rewrite <- app_assoc.
Qed.

(** X18: the validating loop does not look at contiguity.  When the
    ranks of every entry agree and the reduction of an entry raises, the
    builder raises that exception during construction: by then the
    descriptors of the entries in front of it and its own descriptor have
    been produced. *)
Theorem reduction_fails_during_construction (pre post : list BatchInfo)
  (info : BatchInfo) (drop_axes : list Z) (e : exn)
  (produced_before : list ChunkPrimitive)
  (Hagree : Forall (ranks_agree drop_axes) (pre ++ info :: post))
  (Hpre : Forall (fun info => exists out chunk, entry_reduces info out chunk)
                 pre)
  (Hinfo : entry_fails info e) :
  make_chunk_info_for_rust_with_indices (pre ++ info :: post) drop_axes
    produced_before
  = (produced_before ++ make_chunk_info_for_rust pre ++ [entry_primitive info],
     Raise e).
Proof.
  apply check_entries_ok in Hagree.
  unfold make_chunk_info_for_rust_with_indices, bindB, lift.
  rewrite Hagree. now apply build_entries_fail.
Qed.

Lemma reduction_fails_during_construction_witness :
  make_chunk_info_for_rust_with_indices
    ([mk_info "c/0"%string (mk_spec [8] "int16"%string [])
        (BareSlice full_slice) (BareSlice full_slice)]
     ++ mk_info "c/1"%string (mk_spec [8] "int16"%string [])
          (Tuple [IndexArray (array1 [2; 4])])
          (Tuple [IndexArray (array1 [0; 1])])
     :: []) [] []
  = ([] ++ make_chunk_info_for_rust
             [mk_info "c/0"%string (mk_spec [8] "int16"%string [])
                (BareSlice full_slice) (BareSlice full_slice)]
        ++ [entry_primitive
              (mk_info "c/1"%string (mk_spec [8] "int16"%string [])
                 (Tuple [IndexArray (array1 [2; 4])])
                 (Tuple [IndexArray (array1 [0; 1])]))],
     Raise (DiscontiguousArrayError (DiffArg [2]))).
Proof.
  apply reduction_fails_during_construction.
  - constructor; [exists 1%nat; reflexivity|].
    constructor; [exists 1%nat; reflexivity|constructor].
  - constructor; [|constructor].
    exists [Slice full_slice], [Slice full_slice]. split; reflexivity.
  - right. split; [exists [unit_slice 0 2]; reflexivity|reflexivity].
Defined.

(** At the end of the 64-bit range the arithmetic on the positions wraps:
    the stop of the run ending at the largest integer is the smallest
    one, and the pair (largest, smallest) has the wrapped difference [1]
    and is taken for a run. *)
Example run_at_the_upper_bound :
  make_slice_selection
    [IndexArray (array1 [9223372036854775806; 9223372036854775807])]
  = Ok [unit_slice 9223372036854775806 (-9223372036854775808)].
Proof. reflexivity. Qed.

Example wrapped_difference_is_accepted :
  make_slice_selection
    [IndexArray (array1 [9223372036854775807; -9223372036854775808])]
  = Ok [unit_slice 9223372036854775807 (-9223372036854775807)].
Proof. reflexivity. Qed.
